(** * Record linkage core of the air-quality dashboard ([streamlit_app.py])

    The script loads a measurement table and a city gazetteer, normalises
    the city names, rewrites the country column, fuzzy-matches measurement
    cities against gazetteer cities, left-joins the two tables on
    (City, Country) and drops the rows without coordinates.  This file
    embeds lines 9-71 of the script and states the properties of that
    pipeline. *)

From Stdlib Require Import ZArith NArith QArith Qminmax Lqa List Bool Lia String Ascii.
From stdpp Require Import gmap list sorting.

Local Open Scope N_scope.

(** ** Python values *)

(** A Python [str] is a sequence of Unicode code points. *)
Abbreviation codepoint := N (only parsing).
Abbreviation str := (list N) (only parsing).

(** ASCII literals of the script, as code point sequences. *)
Definition py (s : string) : str := map N_of_ascii (list_ascii_of_string s).

(** Exceptions the modelled lines can raise. *)
Inductive PyError := LookupError | TypeError | NameError.

Inductive PyResult (A : Type) :=
| Ok (a : A)
| Raise (e : PyError).
Arguments Ok {A} a.
Arguments Raise {A} e.

Definition bind {A B} (r : PyResult A) (k : A -> PyResult B) : PyResult B :=
  match r with
  | Ok a => k a
  | Raise e => Raise e
  end.

Notation "'let*' x ':=' r 'in' k" := (bind r (fun x => k))
  (at level 10, x name, r at level 100, k at level 200).

(** [Series.apply(f)]: [f] row by row, the first exception aborts. *)
Fixpoint apply {A B} (f : A -> PyResult B) (col : list A) : PyResult (list B) :=
  match col with
  | [] => Ok []
  | x :: rest => let* y := f x in let* ys := apply f rest in Ok (y :: ys)
  end.

(** ** Normalizer: [.str.lower().str.replace("[^a-z0-9]", "", regex=True)] *)

(** CPython's [str.lower] shifts the ASCII capitals; a code point outside
    ASCII is rewritten by the Unicode character database into one to three
    code points (for U+03A3 depending on its neighbours).  That table is
    data of the interpreter, not of this program: it is a parameter, given
    the text before the code point, the code point and the text after it. *)
Class UnicodeDB := { lower_nonascii : str -> codepoint -> str -> str }.

Definition ascii_lower (c : codepoint) : codepoint :=
  if (65 <=? c) && (c <=? 90) then c + 32 else c.

Fixpoint lower_from `{UnicodeDB} (before s : str) : str :=
  match s with
  | [] => []
  | c :: rest =>
      (if c <? 128 then [ascii_lower c] else lower_nonascii before c rest)
        ++ lower_from (before ++ [c]) rest
  end.

Definition lower `{UnicodeDB} (s : str) : str := lower_from [] s.

(** The character class [a-z0-9] of the pattern (no flags are passed). *)
Definition in_class_az09 (c : codepoint) : bool :=
  ((97 <=? c) && (c <=? 122)) || ((48 <=? c) && (c <=? 57)).

(** [re.sub("[^a-z0-9]", "", s)]: every code point outside the class is a
    one-character match and is replaced by the empty string. *)
Definition strip_non_alnum (s : str) : str := List.filter in_class_az09 s.

Definition normalize `{UnicodeDB} (raw : str) : str := strip_non_alnum (lower raw).

(** A database that leaves every non-ASCII code point alone; the examples
    below only contain ASCII text, where the table is never consulted. *)
Definition ascii_only_db : UnicodeDB := {| lower_nonascii := fun _ c _ => [c] |}.

(** ** Country resolver: line 28 *)

(** A record of pycountry's country database. *)
Record CountryData := {
  alpha_2 : str;
  alpha_3 : str;
  name : str;
  numeric : str;
  official_name : option str
}.

(** What the script uses of [pycountry.countries]: iteration over its
    records, and [lookup], which raises [LookupError] ([None] here) when no
    record carries the value.  The database is data of the package and stays
    a parameter. *)
Class Pycountry := {
  countries : list CountryData;
  lookup : str -> option CountryData
}.

(** The objects line 28 compares: the raw cell, a [str], and the records the
    database yields, each an object with an identity of its own. *)
Inductive PyObj :=
| PyStr (s : str)
| PyRecord (oid : nat) (fields : CountryData).

(** [a == b].  pycountry's record class defines no [__eq__], so a record is
    equal to itself only, and never to a [str]. *)
Definition py_eq (a b : PyObj) : bool :=
  match a, b with
  | PyStr s, PyStr t => bool_decide (s = t)
  | PyRecord i _, PyRecord j _ => Nat.eqb i j
  | _, _ => false
  end.

(** [x in container] for a container with [__iter__] and no [__contains__]
    (pycountry's database class): the elements are compared to [x] in turn. *)
Definition py_in (x : PyObj) (container : list PyObj) : bool :=
  existsb (py_eq x) container.

Definition countries_iter `{Pycountry} : list PyObj := imap PyRecord countries.

(** [lambda x: pycountry.countries.lookup(x).alpha_2
               if x in pycountry.countries else x] *)
Definition resolve_country `{Pycountry} (x : str) : PyResult str :=
  if py_in (PyStr x) countries_iter then
    match lookup x with
    | Some c => Ok (alpha_2 c)
    | None => Raise LookupError
    end
  else Ok x.

(** ** Similarity scorer: [rapidfuzz.fuzz.ratio] *)

Definition Qltb (x y : Q) : bool := negb (Qle_bool y x).

(** A rapidfuzz similarity scorer: a score between the worst score 0 and the
    optimal score 100.  The scores are floats; every float is a rational, and
    floats compare as the rationals they are. *)
Class Scorer := {
  ratio : str -> str -> Q;
  ratio_range : forall s1 s2, (0 <= ratio s1 s2 <= 100)%Q
}.

(** A scorer called with [score_cutoff] answers 0 for a score below it. *)
Definition ratio_cutoff `{Scorer} (s1 s2 : str) (score_cutoff : Q) : Q :=
  let score := ratio s1 s2 in
  if Qle_bool score_cutoff score then score else 0%Q.

(** [fuzz.ratio] in exact arithmetic: the normalised Indel similarity,
    [100 * (1 - (len1 + len2 - 2 * lcs) / (len1 + len2))]. *)
Fixpoint lcs (s1 s2 : str) : nat :=
  match s1 with
  | [] => 0%nat
  | x :: s1' =>
      (fix lcs_row (s2 : str) : nat :=
         match s2 with
         | [] => 0%nat
         | y :: s2' =>
             if N.eqb x y then S (lcs s1' s2')
             else Nat.max (lcs s1' s2) (lcs_row s2')
         end) s2
  end.

Definition indel_distance (s1 s2 : str) : nat :=
  (length s1 + length s2 - 2 * lcs s1 s2)%nat.

Definition indel_normalized_distance (s1 s2 : str) : Q :=
  let maximum := (length s1 + length s2)%nat in
  if Nat.eqb maximum 0 then 0%Q
  else (inject_Z (Z.of_nat (indel_distance s1 s2)) / inject_Z (Z.of_nat maximum))%Q.

Definition indel_ratio (s1 s2 : str) : Q :=
  ((1 - indel_normalized_distance s1 s2) * 100)%Q.

(** ** City matcher: [process.extractOne(city, choices, scorer=fuzz.ratio)] *)

(** rapidfuzz scans the choices in order, calls the scorer with the running
    cutoff (0 at first, then the best score so far), keeps a choice whose
    score reaches the cutoff and beats the kept one strictly, and stops at
    the optimal score.  The answer is (choice, score, index), or [None] when
    nothing was kept. *)
Fixpoint extractOne_loop `{Scorer} (query : str) (choices : list str) (i : nat)
    (score_cutoff : Q) (result : option (str * Q * nat)) : option (str * Q * nat) :=
  match choices with
  | [] => result
  | choice :: rest =>
      let score := ratio_cutoff query choice score_cutoff in
      let keep :=
        Qle_bool score_cutoff score &&
        match result with
        | None => true
        | Some (_, result_score, _) => Qltb result_score score
        end in
      let result' := if keep then Some (choice, score, i) else result in
      let score_cutoff' := if keep then score else score_cutoff in
      if Qeq_bool score 100 then result'
      else extractOne_loop query rest (S i) score_cutoff' result'
  end.

Definition extractOne `{Scorer} (query : str) (choices : list str) : option (str * Q * nat) :=
  extractOne_loop query choices 0%nat 0%Q None.

(** ** Tables *)

(** A row of [global_air_pollution_data.csv], by the columns the script keeps. *)
Record AirCsv := {
  country_name : str;
  city_name : str;
  aqi_value : Z;
  pm25_aqi_value : Z;
  no2_aqi_value : Z;
  ozone_aqi_value : Z
}.

(** A row of [geonames_cleaned.csv]; an empty coordinate cell is [None]. *)
Record GeoCsv := {
  geonames_name : str;
  country_code : str;
  latitude : option Q;
  longitude : option Q
}.

(** A row of [df_air_quality]. *)
Record AirRow := {
  air_Country : str;
  air_City : str;
  air_AQI : Z;
  air_PM25 : Z;
  air_NO2 : Z;
  air_Ozone : Z
}.

(** A row of [df_coordinates]. *)
Record GeoRow := {
  geo_City : str;
  geo_Country : str;
  geo_lat : option Q;
  geo_lon : option Q
}.

(** A row of the merged frame and of [df_final]. *)
Record FinalRow := {
  Country : str;
  City : str;
  AQI : Z;
  PM25 : Z;
  NO2 : Z;
  Ozone : Z;
  lat : option Q;
  lon : option Q
}.

Definition set_air_City (f : str -> str) (r : AirRow) : AirRow :=
  {| air_Country := air_Country r; air_City := f (air_City r);
     air_AQI := air_AQI r; air_PM25 := air_PM25 r;
     air_NO2 := air_NO2 r; air_Ozone := air_Ozone r |}.

Definition set_air_Country (c : str) (r : AirRow) : AirRow :=
  {| air_Country := c; air_City := air_City r;
     air_AQI := air_AQI r; air_PM25 := air_PM25 r;
     air_NO2 := air_NO2 r; air_Ozone := air_Ozone r |}.

(** ** Loaders: lines 10-51 *)

(** Lines 14-24: rename the columns and keep six of them. *)
Definition rename_air (r : AirCsv) : AirRow :=
  {| air_Country := country_name r; air_City := city_name r;
     air_AQI := aqi_value r; air_PM25 := pm25_aqi_value r;
     air_NO2 := no2_aqi_value r; air_Ozone := ozone_aqi_value r |}.

(** Lines 27-28: the City column is normalised, then the Country column is
    rewritten cell by cell. *)
Definition load_air_quality_data `{UnicodeDB} `{Pycountry} (csv : list AirCsv)
    : PyResult (list AirRow) :=
  let df := map rename_air csv in
  let df := map (set_air_City normalize) df in
  apply (fun r => let* c := resolve_country (air_Country r) in Ok (set_air_Country c r)) df.

(** Lines 38-49. *)
Definition load_city_coordinates `{UnicodeDB} (csv : list GeoCsv) : list GeoRow :=
  map (fun r => {| geo_City := normalize (geonames_name r);
                   geo_Country := country_code r;
                   geo_lat := latitude r; geo_lon := longitude r |}) csv.

(** ** Matching and joining: lines 57-71 *)

(** [Series.unique()]: the distinct values in order of first appearance. *)
Fixpoint unique_from (seen col : list str) : list str :=
  match col with
  | [] => []
  | x :: rest =>
      if bool_decide (x ∈ seen) then unique_from seen rest
      else x :: unique_from (x :: seen) rest
  end.

Definition unique (col : list str) : list str := unique_from [] col.

(** Lines 59-63.  Unpacking the answer of [extractOne] raises [TypeError]
    when the answer is [None]. *)
Fixpoint match_cities `{Scorer} (cities choices : list str) (city_mapping : gmap str str)
    : PyResult (gmap str str) :=
  match cities with
  | [] => Ok city_mapping
  | city :: rest =>
      match extractOne city choices with
      | None => Raise TypeError
      | Some (match_, score, _) =>
          match_cities rest choices
            (if Qltb 85 score then <[city := match_]> city_mapping else city_mapping)
      end
  end.

(** [Series.replace(city_mapping)]: a cell equal to a key becomes the key's
    value; the cells are compared with the keys before any is rewritten. *)
Definition replace (city_mapping : gmap str str) (cell : str) : str :=
  default cell (city_mapping !! cell).

Definition same_key (a : AirRow) (g : GeoRow) : bool :=
  bool_decide (air_City a = geo_City g) && bool_decide (air_Country a = geo_Country g).

Definition joined (a : AirRow) (la lo : option Q) : FinalRow :=
  {| Country := air_Country a; City := air_City a; AQI := air_AQI a;
     PM25 := air_PM25 a; NO2 := air_NO2 a; Ozone := air_Ozone a;
     lat := la; lon := lo |}.

(** [merge(..., on=["City", "Country"], how="left")]: a left row is paired
    with every right row of the same key, in the right frame's order, and
    kept once with null coordinates when there is none. *)
Definition merge_row (geo : list GeoRow) (a : AirRow) : list FinalRow :=
  match List.filter (same_key a) geo with
  | [] => [joined a None None]
  | matches => map (fun g => joined a (geo_lat g) (geo_lon g)) matches
  end.

Definition merge_left (air : list AirRow) (geo : list GeoRow) : list FinalRow :=
  flat_map (merge_row geo) air.

Definition notna (r : FinalRow) : bool :=
  match lat r, lon r with
  | Some _, Some _ => true
  | _, _ => false
  end.

(** [dropna(subset=['lat', 'lon'])]: a row with a null in either column goes. *)
Definition dropna (df : list FinalRow) : list FinalRow := List.filter notna df.

(** Lines 57-71: what the name [df_final] is bound to afterwards, [None] when
    the block was skipped and the name is unbound. *)
Definition join_block `{Scorer} (df_air_quality : list AirRow) (df_coordinates : list GeoRow)
    : PyResult (option (list FinalRow)) :=
  match df_coordinates with
  | [] => Ok None
  | _ =>
      let* city_mapping :=
        match_cities (unique (map air_City df_air_quality))
                     (unique (map geo_City df_coordinates)) ∅ in
      let df_air_quality := map (set_air_City (replace city_mapping)) df_air_quality in
      Ok (Some (dropna (merge_left df_air_quality df_coordinates)))
  end.

(** Line 87, the first use of [df_final]: an unbound name raises [NameError]. *)
Definition df_final `{Scorer} (df_air_quality : list AirRow) (df_coordinates : list GeoRow)
    : PyResult (list FinalRow) :=
  let* bound := join_block df_air_quality df_coordinates in
  match bound with
  | Some table => Ok table
  | None => Raise NameError
  end.

(** ** The script with its cache: lines 9, 33, 54-71 *)

Record Files := {
  global_air_pollution_data : list AirCsv;
  geonames_cleaned : list GeoCsv
}.

(** [st.cache_data] keeps the value a loader returned and hands out a copy
    of it at every later call; an exception is not cached. *)
Record Cache := {
  air_entry : option (list AirRow);
  geo_entry : option (list GeoRow)
}.

Definition empty_cache : Cache := {| air_entry := None; geo_entry := None |}.

Definition cached_load_air `{UnicodeDB} `{Pycountry} (fs : Files) (cache : Cache)
    : PyResult (list AirRow) * Cache :=
  match air_entry cache with
  | Some df => (Ok df, cache)
  | None =>
      match load_air_quality_data (global_air_pollution_data fs) with
      | Ok df => (Ok df, {| air_entry := Some df; geo_entry := geo_entry cache |})
      | Raise e => (Raise e, cache)
      end
  end.

Definition cached_load_geo `{UnicodeDB} (fs : Files) (cache : Cache) : list GeoRow * Cache :=
  match geo_entry cache with
  | Some df => (df, cache)
  | None =>
      let df := load_city_coordinates (geonames_cleaned fs) in
      (df, {| air_entry := air_entry cache; geo_entry := Some df |})
  end.

(** One run of the script up to the table handed to the charts. *)
Definition run_script `{UnicodeDB} `{Pycountry} `{Scorer} (fs : Files) (cache : Cache)
    : PyResult (list FinalRow) * Cache :=
  match cached_load_air fs cache with
  | (Raise e, cache) => (Raise e, cache)
  | (Ok df_air_quality, cache) =>
      let '(df_coordinates, cache) := cached_load_geo fs cache in
      (df_final df_air_quality df_coordinates, cache)
  end.

(** The pipeline on two tables, in a fresh process. *)
Definition pipeline `{UnicodeDB} `{Pycountry} `{Scorer} (air : list AirCsv) (geo : list GeoCsv)
    : PyResult (list FinalRow) :=
  fst (run_script {| global_air_pollution_data := air; geonames_cleaned := geo |} empty_cache).

(** ** Selectors of the dashboard: lines 104-124 *)

(** Python orders strings by code points, a proper prefix first. *)
Fixpoint str_leb (a b : str) : bool :=
  match a, b with
  | [], _ => true
  | _ :: _, [] => false
  | x :: a', y :: b' =>
      if x <? y then true else if x =? y then str_leb a' b' else false
  end.

Definition str_le (a b : str) : Prop := str_leb a b = true.

#[export] Instance str_le_dec : RelDecision str_le :=
  fun a b => decide (str_leb a b = true).

(** [sorted(values)]: the values in increasing order.  Equal strings cannot
    be told apart, so the order alone fixes the result. *)
Definition sorted (values : list str) : list str := merge_sort str_le values.

Module Selectors.

(** Line 111, and the row selection inside line 106. *)
Definition country_data (df_final : list FinalRow) (selected_country : str) : list FinalRow :=
  List.filter (fun r => bool_decide (Country r = selected_country)) df_final.

(** Line 104.  No Country cell is null in these tables, so [dropna()] keeps
    them all. *)
Definition countries (df_final : list FinalRow) : list str :=
  sorted (unique (map Country df_final)).

(** Line 106. *)
Definition cities_in_country (df_final : list FinalRow) (selected_country : str) : list str :=
  sorted (unique (map City (country_data df_final selected_country))).

(** Line 124: the rows of the selected city, of whatever country. *)
Definition city_data (df_final : list FinalRow) (selected_city : str) : list FinalRow :=
  List.filter (fun r => bool_decide (City r = selected_city)) df_final.

End Selectors.

(** ** Vocabulary of the statements *)

(** The best score of [s] among the candidates [G]. *)
Definition max_score `{Scorer} (s : str) (G : list str) : Q :=
  fold_right Qmax 0%Q (map (ratio s) G).

(** The entry the loop records for [s]: the answer of [extractOne] when its
    score exceeds 85. *)
Definition accepted `{Scorer} (s : str) (G : list str) : option str :=
  match extractOne s G with
  | Some (m, score, _) => if Qltb 85 score then Some m else None
  | None => None
  end.

(** What the loop knows between two choices: the cutoff is the kept score,
    or 0 while nothing is kept. *)
Definition loop_inv `{Scorer} (query : str) (score_cutoff : Q) (result : option (str * Q * nat)) : Prop :=
  match result with
  | None => (score_cutoff == 0)%Q
  | Some (m, s, _) => score_cutoff = s /\ s = ratio query m
  end.

Definition geo_key (g : GeoRow) : str * str := (geo_City g, geo_Country g).

Definition has_coords (g : GeoRow) : bool :=
  match geo_lat g, geo_lon g with
  | Some _, Some _ => true
  | _, _ => false
  end.

(** The rows of [df_final] that come from one measurement row. *)
Definition output_rows (geo : list GeoRow) (a : AirRow) : list FinalRow :=
  dropna (merge_row geo a).

Definition loaded_air `{UnicodeDB} (fs : Files) : list AirRow :=
  map (set_air_City normalize) (map rename_air (global_air_pollution_data fs)).

Definition loaded_geo `{UnicodeDB} (fs : Files) : list GeoRow :=
  load_city_coordinates (geonames_cleaned fs).

(** A cache entry, when there is one, is what the loader returns on [fs]. *)
Definition cache_valid `{UnicodeDB} (fs : Files) (cache : Cache) : Prop :=
  (air_entry cache = None \/ air_entry cache = Some (loaded_air fs)) /\
  (geo_entry cache = None \/ geo_entry cache = Some (loaded_geo fs)).

Definition full_cache `{UnicodeDB} (fs : Files) : Cache :=
  {| air_entry := Some (loaded_air fs); geo_entry := Some (loaded_geo fs) |}.

(** [m] at index [j] with score [s] is the first best choice for [query]:
    earlier choices score less, no choice scores more. *)
Definition first_best `{Scorer} (query : str) (choices : list str)
    (m : str) (s : Q) (j : nat) : Prop :=
  choices !! j = Some m /\
  s = ratio query m /\
  (forall k g, (k < j)%nat -> choices !! k = Some g -> (ratio query g < s)%Q) /\
  (forall g, In g choices -> (ratio query g <= s)%Q).

(** What the loop knows after the choices [scanned]. *)
Definition scan_inv `{Scorer} (query : str) (scanned : list str) (score_cutoff : Q)
    (result : option (str * Q * nat)) : Prop :=
  match result with
  | None => scanned = [] /\ (score_cutoff == 0)%Q
  | Some (m, s, j) => score_cutoff = s /\ first_best query scanned m s j
  end.

(** ** A database for the examples *)

(** pycountry's [lookup] lower-cases the value and returns a record one of
    whose fields, lower-cased, is that value. *)
Definition field_is `{UnicodeDB} (value : str) (field : str) : bool :=
  bool_decide (lower field = lower value).

Definition lookup_in `{UnicodeDB} (db : list CountryData) (value : str) : option CountryData :=
  List.find (fun c =>
    field_is value (alpha_2 c) || field_is value (alpha_3 c) ||
    field_is value (name c) || field_is value (numeric c) ||
    match official_name c with Some n => field_is value n | None => false end) db.

Definition pycountry_of `{UnicodeDB} (db : list CountryData) : Pycountry :=
  {| countries := db; lookup := lookup_in db |}.

Definition united_states : CountryData :=
  {| alpha_2 := py "US"; alpha_3 := py "USA"; name := py "United States";
     numeric := py "840"; official_name := Some (py "United States of America") |}.

Definition france : CountryData :=
  {| alpha_2 := py "FR"; alpha_3 := py "FRA"; name := py "France";
     numeric := py "250"; official_name := Some (py "French Republic") |}.

Definition sample_pycountry : Pycountry :=
  @pycountry_of ascii_only_db [france; united_states].

(** ** Tables for the examples *)

Definition measurement_france : AirCsv :=
  {| country_name := py "France"; city_name := py "Parris"; aqi_value := 50;
     pm25_aqi_value := 20; no2_aqi_value := 10; ozone_aqi_value := 5 |}.

(** The same measurement with the country already given as a code. *)
Definition measurement_fr : AirCsv :=
  {| country_name := py "FR"; city_name := py "Parris"; aqi_value := 50;
     pm25_aqi_value := 20; no2_aqi_value := 10; ozone_aqi_value := 5 |}.

Definition gazetteer_paris : GeoCsv :=
  {| geonames_name := py "Paris"; country_code := py "FR";
     latitude := Some 48.85%Q; longitude := Some 2.35%Q |}.

(** A second gazetteer row with the key of [gazetteer_paris]. *)
Definition gazetteer_paris_bis : GeoCsv :=
  {| geonames_name := py "Paris"; country_code := py "FR";
     latitude := Some 48.86%Q; longitude := Some 2.36%Q |}.

(** A gazetteer row without latitude. *)
Definition gazetteer_paris_no_lat : GeoCsv :=
  {| geonames_name := py "Paris"; country_code := py "FR";
     latitude := None; longitude := Some 2.35%Q |}.

Definition row_paris (la lo : Q) : FinalRow :=
  {| Country := py "FR"; City := py "paris"; AQI := 50; PM25 := 20; NO2 := 10;
     Ozone := 5; lat := Some la; lon := Some lo |}.

(** The frames the loaders make of these rows. *)
Definition air_parris_fr : AirRow :=
  {| air_Country := py "FR"; air_City := py "parris"; air_AQI := 50;
     air_PM25 := 20; air_NO2 := 10; air_Ozone := 5 |}.

Definition geo_paris : GeoRow :=
  {| geo_City := py "paris"; geo_Country := py "FR";
     geo_lat := Some 48.85%Q; geo_lon := Some 2.35%Q |}.

Definition geo_paris_bis : GeoRow :=
  {| geo_City := py "paris"; geo_Country := py "FR";
     geo_lat := Some 48.86%Q; geo_lon := Some 2.36%Q |}.

Definition geo_paris_no_lat : GeoRow :=
  {| geo_City := py "paris"; geo_Country := py "FR";
     geo_lat := None; geo_lon := Some 2.35%Q |}.

(** ** The exact scorer is a scorer *)

Lemma lcs_le_length_l (s1 s2 : str) : (lcs s1 s2 <= length s1)%nat.
Proof.
  revert s2. induction s1 as [|x s1 IH]; intros s2; [simpl; lia|].
  induction s2 as [|y s2 IH2]; [simpl; lia|].
  change (lcs (x :: s1) (y :: s2))
    with (if N.eqb x y then S (lcs s1 s2) else Nat.max (lcs s1 (y :: s2)) (lcs (x :: s1) s2)).
  destruct (N.eqb x y).
  - specialize (IH s2). simpl. lia.
  - specialize (IH (y :: s2)). simpl in *. lia.
Qed.

Lemma lcs_le_length_r (s1 s2 : str) : (lcs s1 s2 <= length s2)%nat.
Proof.
  revert s2. induction s1 as [|x s1 IH]; intros s2; [simpl; lia|].
  induction s2 as [|y s2 IH2]; [simpl; lia|].
  change (lcs (x :: s1) (y :: s2))
    with (if N.eqb x y then S (lcs s1 s2) else Nat.max (lcs s1 (y :: s2)) (lcs (x :: s1) s2)).
  destruct (N.eqb x y).
  - specialize (IH s2). simpl. lia.
  - specialize (IH (y :: s2)). simpl in *. lia.
Qed.

Lemma indel_normalized_distance_range (s1 s2 : str) :
  (0 <= indel_normalized_distance s1 s2 <= 1)%Q.
Proof.
  unfold indel_normalized_distance, indel_distance.
  pose proof (lcs_le_length_l s1 s2) as Hl.
  pose proof (lcs_le_length_r s1 s2) as Hr.
  destruct (Nat.eqb (length s1 + length s2) 0) eqn:E.
  - split; [apply Qle_refl | discriminate].
  - apply Nat.eqb_neq in E.
    set (m := (length s1 + length s2)%nat) in *.
    set (d := (m - 2 * lcs s1 s2)%nat).
    assert (Hd : (d <= m)%nat) by (unfold d; lia).
    assert (Hm : (0 < inject_Z (Z.of_nat m))%Q).
    { rewrite <- (Zlt_Qlt 0). lia. }
    split.
    + apply Qle_shift_div_l; [exact Hm|].
      rewrite Qmult_0_l. rewrite <- (Zle_Qle 0). lia.
    + apply Qle_shift_div_r; [exact Hm|].
      rewrite Qmult_1_l. rewrite <- Zle_Qle. lia.
Qed.

Lemma indel_ratio_range (s1 s2 : str) : (0 <= indel_ratio s1 s2 <= 100)%Q.
Proof.
  unfold indel_ratio.
  pose proof (indel_normalized_distance_range s1 s2). lra.
Qed.

(** [fuzz.ratio], the scorer line 61 passes. *)
Definition fuzz_ratio : Scorer := {| ratio := indel_ratio; ratio_range := indel_ratio_range |}.

(** ** Normalizer: properties *)

Section Normalizer.
Context `{UnicodeDB}.

Lemma in_class_spec c :
  in_class_az09 c = true <-> (97 <= c <= 122) \/ (48 <= c <= 57).
Proof.
  unfold in_class_az09.
  rewrite orb_true_iff, !andb_true_iff, !N.leb_le. tauto.
Qed.

Lemma in_class_lt_128 c : in_class_az09 c = true -> (c <? 128) = true.
Proof. rewrite in_class_spec. intros Hc. apply N.ltb_lt. lia. Qed.

Lemma in_class_ascii_lower c : in_class_az09 c = true -> ascii_lower c = c.
Proof.
  rewrite in_class_spec. unfold ascii_lower. intros Hc.
  destruct (65 <=? c) eqn:E1; destruct (c <=? 90) eqn:E2; simpl; try reflexivity.
  apply N.leb_le in E1, E2. lia.
Qed.

Lemma lower_from_fixed before s :
  Forall (fun c => in_class_az09 c = true) s -> lower_from before s = s.
Proof.
  intros Hs. revert before.
  induction Hs as [|c s Hc Hs IH]; intros before; simpl.
  - reflexivity.
  - rewrite (in_class_lt_128 c Hc), (in_class_ascii_lower c Hc), IH. reflexivity.
Qed.

Lemma strip_non_alnum_class s :
  Forall (fun c => in_class_az09 c = true) (strip_non_alnum s).
Proof.
  unfold strip_non_alnum. induction s as [|c s IH]; simpl.
  - constructor.
  - destruct (in_class_az09 c) eqn:E; [constructor; assumption | assumption].
Qed.

Lemma strip_non_alnum_fixed s :
  Forall (fun c => in_class_az09 c = true) s -> strip_non_alnum s = s.
Proof.
  unfold strip_non_alnum. induction 1 as [|c s Hc Hs IH]; simpl.
  - reflexivity.
  - rewrite Hc, IH. reflexivity.
Qed.

(** C7: normalize is total and idempotent.  It is a function on every
    string (no exception is modelled because none can occur), the empty
    string is mapped to the empty string, and normalising twice is the same
    as normalising once. *)
Theorem normalize_total_idempotent (x : str) :
  (exists y, normalize x = y) /\
  normalize [] = [] /\
  normalize (normalize x) = normalize x.
Proof.
  split; [eexists; reflexivity|]. split; [reflexivity|].
  unfold normalize at 1. unfold lower.
  pose proof (strip_non_alnum_class (lower x)) as Hcls.
  fold (normalize x) in Hcls.
  rewrite (lower_from_fixed [] _ Hcls).
  apply strip_non_alnum_fixed, Hcls.
Qed.

(** C8: every character of a normalised string is a lowercase ASCII letter
    (code points 97..122) or an ASCII digit (48..57); capitals, punctuation,
    blanks and everything outside ASCII are gone. *)
Theorem normalize_only_lower_alnum (x : str) :
  Forall (fun c => (97 <= c <= 122) \/ (48 <= c <= 57)) (normalize x).
Proof.
  unfold normalize.
  eapply Forall_impl; [apply strip_non_alnum_class|].
  intros c Hc. apply in_class_spec, Hc.
Qed.

End Normalizer.

(** ** Country resolver: properties *)

Section CountryResolver.
Context `{UnicodeDB} `{Pycountry}.

Lemma py_in_str_records (x : str) (f : nat -> CountryData -> PyObj) (db : list CountryData) :
  (forall i c, py_eq (PyStr x) (f i c) = false) ->
  py_in (PyStr x) (imap f db) = false.
Proof.
  unfold py_in. revert f.
  induction db as [|c db IH]; intros f Hf; cbn [imap existsb].
  - reflexivity.
  - rewrite Hf. cbn [orb]. apply IH. intros i c'. apply Hf.
Qed.

Lemma str_not_in_countries (x : str) : py_in (PyStr x) countries_iter = false.
Proof. apply py_in_str_records. reflexivity. Qed.

Lemma resolve_country_passes (x : str) : resolve_country x = Ok x.
Proof. unfold resolve_country. rewrite str_not_in_countries. reflexivity. Qed.

Lemma apply_resolve_country (df : list AirRow) :
  apply (fun r => let* c := resolve_country (air_Country r) in Ok (set_air_Country c r)) df
  = Ok df.
Proof.
  induction df as [|r df IH]; simpl.
  - reflexivity.
  - rewrite resolve_country_passes. simpl. rewrite IH. simpl.
    destruct r; reflexivity.
Qed.

Lemma load_air_quality_data_eq (csv : list AirCsv) :
  load_air_quality_data csv = Ok (map (set_air_City normalize) (map rename_air csv)).
Proof. unfold load_air_quality_data. apply apply_resolve_country. Qed.

(** C10: the country step as written is the identity on every string.  The
    membership test of line 28 is false for every string, whatever the
    database holds, so the loader returns the Country column as it was read:
    no cell is rewritten to an alpha-2 code. *)
Theorem country_step_is_identity (x : str) (csv : list AirCsv) :
  py_in (PyStr x) countries_iter = false /\
  resolve_country x = Ok x /\
  exists df, load_air_quality_data csv = Ok df /\
             map air_Country df = map country_name csv.
Proof.
  split; [apply str_not_in_countries|]. split; [apply resolve_country_passes|].
  eexists. split; [apply load_air_quality_data_eq|].
  rewrite !map_map. apply map_ext. intros r. reflexivity.
Qed.

End CountryResolver.

(** C2: on the sample database [lookup] finds the record of the United
    States, whose alpha-2 code is US, and the resolver still returns the
    name unchanged, because the membership test fails; an unknown name is
    returned unchanged as well. *)
Theorem resolve_country_united_states :
  @lookup sample_pycountry (py "United States") = Some united_states /\
  alpha_2 united_states = py "US" /\
  @resolve_country sample_pycountry (py "United States") = Ok (py "United States") /\
  @resolve_country sample_pycountry (py "United States") <> Ok (py "US") /\
  @resolve_country sample_pycountry (py "Unknownland") = Ok (py "Unknownland").
Proof.
  split; [vm_compute; reflexivity|]. split; [reflexivity|].
  split; [apply resolve_country_passes|].
  split; [rewrite resolve_country_passes; discriminate|].
  apply resolve_country_passes.
Qed.

(** ** City matcher: properties *)

Ltac split_ands := repeat match goal with |- _ /\ _ => split end.

Lemma Qle_bool_false (x y : Q) : Qle_bool x y = false <-> (y < x)%Q.
Proof.
  rewrite <- not_true_iff_false, Qle_bool_iff.
  split; [apply Qnot_le_lt | apply Qlt_not_le].
Qed.

Lemma Qltb_true (x y : Q) : Qltb x y = true <-> (x < y)%Q.
Proof. unfold Qltb. rewrite negb_true_iff. apply Qle_bool_false. Qed.

Lemma Qltb_false (x y : Q) : Qltb x y = false <-> (y <= x)%Q.
Proof. unfold Qltb. rewrite negb_false_iff. apply Qle_bool_iff. Qed.

Lemma Qeq_bool_false (x y : Q) : Qeq_bool x y = false <-> ~ (x == y)%Q.
Proof. rewrite <- not_true_iff_false, Qeq_bool_iff. tauto. Qed.

Section CityMatcher.
Context `{Scorer}.

Lemma ratio_cutoff_cases (query choice : str) (score_cutoff : Q) :
  ((score_cutoff <= ratio query choice)%Q /\
   ratio_cutoff query choice score_cutoff = ratio query choice) \/
  ((ratio query choice < score_cutoff)%Q /\
   ratio_cutoff query choice score_cutoff = 0%Q).
Proof.
  unfold ratio_cutoff.
  destruct (Qle_bool score_cutoff (ratio query choice)) eqn:E.
  - left. split; [apply Qle_bool_iff, E | reflexivity].
  - right. split; [apply Qle_bool_false, E | reflexivity].
Qed.

Lemma loop_inv_cutoff (query : str) (score_cutoff : Q) result :
  loop_inv query score_cutoff result -> (0 <= score_cutoff)%Q.
Proof.
  destruct result as [[[m s] j]|]; cbn.
  - intros [-> ->]. apply ratio_range.
  - intros ->. apply Qle_refl.
Qed.

Lemma extractOne_loop_spec (query : str) (choices : list str) :
  forall (i : nat) (score_cutoff : Q) (result : option (str * Q * nat)),
  loop_inv query score_cutoff result ->
  (result = None -> choices <> []) ->
  exists m s j,
    extractOne_loop query choices i score_cutoff result = Some (m, s, j) /\
    s = ratio query m /\
    (In m choices \/ result = Some (m, s, j)) /\
    (forall g, In g choices -> (ratio query g <= s)%Q) /\
    (score_cutoff <= s)%Q.
Proof.
  induction choices as [|choice rest IH]; intros i score_cutoff result Hinv Hne.
  - destruct result as [[[m s] j]|]; [|exfalso; apply Hne; reflexivity].
    destruct Hinv as [-> Hs]. exists m, s, j. cbn.
    split_ands; [reflexivity | exact Hs | right; reflexivity | intros g [] | apply Qle_refl].
  - pose proof (loop_inv_cutoff _ _ _ Hinv) as Hcut.
    pose proof (ratio_range query choice) as Hrange.
    cbn [extractOne_loop].
    destruct (Qle_bool score_cutoff (ratio_cutoff query choice score_cutoff) &&
              match result with
              | Some (_, result_score, _) =>
                  Qltb result_score (ratio_cutoff query choice score_cutoff)
              | None => true
              end) eqn:Hkeep.
    + (* the choice is kept, with its true score *)
      apply andb_true_iff in Hkeep as [Hle _]. apply Qle_bool_iff in Hle.
      assert (Hkept : ratio_cutoff query choice score_cutoff = ratio query choice).
      { destruct (ratio_cutoff_cases query choice score_cutoff) as [[_ E]|[Hlt E]];
          [exact E | rewrite E in Hle; lra]. }
      rewrite Hkept in *.
      destruct (Qeq_bool (ratio query choice) 100) eqn:Hopt.
      * apply Qeq_bool_iff in Hopt. exists choice, (ratio query choice), i.
        split_ands; [reflexivity | reflexivity | left; left; reflexivity | | exact Hle].
        intros g _. pose proof (ratio_range query g). lra.
      * destruct (IH (S i) (ratio query choice) (Some (choice, ratio query choice, i)))
          as (m & s & j & Hrun & Hs & Hin & Hmax & Hge).
        { cbn. split; reflexivity. }
        { discriminate. }
        exists m, s, j. split_ands; [exact Hrun | exact Hs | | | lra].
        -- destruct Hin as [Hin|Heq]; [left; right; exact Hin|].
           injection Heq as <- <- <-. left; left; reflexivity.
        -- intros g [<-|Hg]; [exact Hge | apply Hmax, Hg].
    + (* the choice is passed over: a choice at least as good is kept *)
      destruct result as [[[m0 s0] j0]|]; cbn in Hinv.
      2:{ exfalso. rewrite andb_true_r in Hkeep. apply Qle_bool_false in Hkeep.
          destruct (ratio_cutoff_cases query choice score_cutoff) as [[Hle E]|[Hlt E]];
            rewrite E in Hkeep; lra. }
      destruct Hinv as [-> Hs0].
      assert (Hbelow : (ratio query choice <= s0)%Q /\
                       (ratio_cutoff query choice s0 <= s0)%Q).
      { destruct (ratio_cutoff_cases query choice s0) as [[Hle E]|[Hlt E]];
          rewrite E in *.
        - apply andb_false_iff in Hkeep as [Hk|Hk].
          + apply Qle_bool_false in Hk. lra.
          + apply Qltb_false in Hk. lra.
        - lra. }
      destruct Hbelow as [Hbelow Hscore].
      destruct (Qeq_bool (ratio_cutoff query choice s0) 100) eqn:Hopt.
      * apply Qeq_bool_iff in Hopt. exists m0, s0, j0.
        split_ands; [reflexivity | exact Hs0 | right; reflexivity | | apply Qle_refl].
        intros g _. pose proof (ratio_range query g). lra.
      * destruct (IH (S i) s0 (Some (m0, s0, j0))) as (m & s & j & Hrun & Hs & Hin & Hmax & Hge).
        { cbn. split; [reflexivity | exact Hs0]. }
        { discriminate. }
        exists m, s, j. split_ands; [exact Hrun | exact Hs | | | exact Hge].
        -- destruct Hin as [Hin|Heq]; [left; right; exact Hin | right; exact Heq].
        -- intros g [<-|Hg]; [lra | apply Hmax, Hg].
Qed.

(** On a non-empty list of choices [extractOne] answers, with a choice of
    the list whose score no other choice exceeds, and with that score. *)
Lemma extractOne_best (query : str) (choices : list str) :
  choices <> [] ->
  exists m j,
    extractOne query choices = Some (m, ratio query m, j) /\
    In m choices /\
    forall g, In g choices -> (ratio query g <= ratio query m)%Q.
Proof.
  intros Hne. unfold extractOne.
  destruct (extractOne_loop_spec query choices 0%nat 0%Q None)
    as (m & s & j & Hrun & -> & Hin & Hmax & _).
  - cbn. reflexivity.
  - intros _. exact Hne.
  - exists m, j. split; [exact Hrun|]. split; [|exact Hmax].
    destruct Hin as [Hin|Habs]; [exact Hin | discriminate].
Qed.

Lemma extractOne_empty (query : str) : extractOne query [] = None.
Proof. reflexivity. Qed.

End CityMatcher.

(** ** [unique] *)

Lemma unique_from_In (col seen : list str) (x : str) :
  In x (unique_from seen col) <-> In x col /\ ~ In x seen.
Proof.
  revert seen. induction col as [|y col IH]; intros seen; cbn [unique_from].
  - cbn. tauto.
  - destruct (bool_decide (y ∈ seen)) eqn:E.
    + apply bool_decide_eq_true in E. apply list_elem_of_In in E.
      rewrite IH. cbn. split; [tauto|].
      intros [[<-|Hx] Hn]; [contradiction | tauto].
    + apply bool_decide_eq_false in E. rewrite list_elem_of_In in E.
      cbn. rewrite IH. cbn.
      destruct (decide (y = x)) as [<-|Hne]; [tauto|]. tauto.
Qed.

Lemma unique_In (col : list str) (x : str) : In x (unique col) <-> In x col.
Proof. unfold unique. rewrite unique_from_In. cbn. tauto. Qed.

Lemma unique_nonempty (col : list str) : col <> [] -> unique col <> [].
Proof.
  destruct col as [|x col]; [congruence|]. intros _. unfold unique. cbn. discriminate.
Qed.

Lemma unique_from_NoDup (col seen : list str) : List.NoDup (unique_from seen col).
Proof.
  revert seen. induction col as [|y col IH]; intros seen; cbn [unique_from].
  - constructor.
  - destruct (bool_decide (y ∈ seen)); [apply IH|].
    constructor; [|apply IH].
    rewrite unique_from_In. cbn. tauto.
Qed.

(** ** The mapping built by lines 59-63 *)

Section CityMapping.
Context `{Scorer}.

Lemma max_score_upper (s : str) (G : list str) (g : str) :
  In g G -> (ratio s g <= max_score s G)%Q.
Proof.
  unfold max_score. induction G as [|g' G IH]; cbn; [tauto|].
  intros [->|Hg].
  - apply Q.le_max_l.
  - eapply Qle_trans; [apply IH, Hg | apply Q.le_max_r].
Qed.

Lemma max_score_attained (s : str) (G : list str) :
  G <> [] -> exists g, In g G /\ (ratio s g == max_score s G)%Q.
Proof.
  unfold max_score. induction G as [|g G IH]; [congruence|]. intros _. cbn.
  destruct (Q.max_spec (ratio s g) (fold_right Qmax 0%Q (map (ratio s) G))) as [[Hlt E]|[Hle E]].
  - destruct G as [|g' G].
    + cbn in *. pose proof (ratio_range s g). lra.
    + destruct IH as (g0 & Hin & E0); [discriminate|].
      exists g0. split; [right; exact Hin|]. rewrite E. exact E0.
  - exists g. split; [left; reflexivity|]. rewrite E. reflexivity.
Qed.

Lemma best_is_max_score (s m : str) (G : list str) :
  In m G -> (forall g, In g G -> (ratio s g <= ratio s m)%Q) ->
  (ratio s m == max_score s G)%Q.
Proof.
  intros Hin Hmax. apply Qle_antisym; [apply max_score_upper, Hin|].
  destruct (max_score_attained s G) as (g & Hg & <-); [intros ->; exact Hin|].
  apply Hmax, Hg.
Qed.

Lemma accepted_spec (s : str) (G : list str) :
  G <> [] ->
  (is_Some (accepted s G) <-> (85 < max_score s G)%Q) /\
  (forall m, accepted s G = Some m -> In m G /\ (ratio s m == max_score s G)%Q).
Proof.
  intros Hne. unfold accepted.
  destruct (extractOne_best s G Hne) as (m & j & -> & Hin & Hmax).
  pose proof (best_is_max_score s m G Hin Hmax) as Hbest.
  destruct (Qltb 85 (ratio s m)) eqn:E.
  - apply Qltb_true in E. split.
    + split; [intros _; lra | intros _; eexists; reflexivity].
    + intros m' [= <-]. split; assumption.
  - apply Qltb_false in E. split.
    + split; [intros [? [=]] | intros Hlt; lra].
    + intros m' [=].
Qed.

Lemma match_cities_spec (cities G : list str) :
  G <> [] ->
  forall city_mapping, exists M,
    match_cities cities G city_mapping = Ok M /\
    (forall s, In s cities ->
       M !! s = match accepted s G with
                | Some m => Some m
                | None => city_mapping !! s
                end) /\
    (forall s, ~ In s cities -> M !! s = city_mapping !! s).
Proof.
  intros Hne. induction cities as [|city rest IH]; intros city_mapping.
  - exists city_mapping. cbn. split_ands; [reflexivity | tauto | reflexivity].
  - cbn [match_cities].
    assert (Hstep : forall s,
      (match extractOne city G with
       | Some (m, score, _) =>
           if Qltb 85 score then <[city := m]> city_mapping else city_mapping
       | None => city_mapping
       end) !! s =
      if decide (city = s)
      then match accepted city G with Some m => Some m | None => city_mapping !! city end
      else city_mapping !! s).
    { intros s. unfold accepted.
      destruct (extractOne city G) as [[[m score] j]|]; [|destruct (decide _) as [<-|]; reflexivity].
      destruct (Qltb 85 score); [|destruct (decide _) as [<-|]; reflexivity].
      rewrite lookup_insert. reflexivity. }
    destruct (extractOne_best city G Hne) as (m & j & Hrun & _).
    rewrite Hrun in *.
    destruct (IH (if Qltb 85 (ratio city m) then <[city := m]> city_mapping else city_mapping))
      as (M & HM & Hin & Hout).
    exists M. split_ands; [exact HM | |].
    + intros s Hs.
      destruct (decide (s ∈ rest)) as [Hrest|Hrest]; rewrite list_elem_of_In in Hrest.
      * rewrite (Hin s Hrest), Hstep.
        destruct (decide (city = s)) as [<-|Hne']; [|reflexivity].
        destruct (accepted city G); reflexivity.
      * destruct Hs as [<-|Hs]; [|contradiction].
        rewrite (Hout city Hrest), Hstep.
        destruct (decide (city = city)); [reflexivity | congruence].
    + intros s Hs. cbn in Hs.
      rewrite (Hout s ltac:(tauto)), Hstep.
      destruct (decide (city = s)); [tauto | reflexivity].
Qed.

Lemma city_matcher_loop_total (air : list AirRow) (geo : list GeoRow) :
  geo <> [] ->
  exists M,
    match_cities (unique (map air_City air)) (unique (map geo_City geo)) ∅ = Ok M.
Proof.
  intros Hgeo.
  assert (HG : unique (map geo_City geo) <> []).
  { apply unique_nonempty. destruct geo; [congruence | discriminate]. }
  destruct (match_cities_spec (unique (map air_City air)) _ HG ∅) as (M & HM & _).
  exists M. exact HM.
Qed.

(** C3: with a non-empty gazetteer, the loop of lines 59-63 ends with a
    mapping [M] that has an entry for a measurement city exactly when the
    best score of that city among the gazetteer cities exceeds 85; the entry
    is a gazetteer city whose score is that best score; no other string has
    an entry; and a measurement row whose city has no entry is unchanged in
    the rewritten table. *)
Theorem city_matcher_invariant (air : list AirRow) (geo : list GeoRow) :
  geo <> [] ->
  exists M,
    match_cities (unique (map air_City air)) (unique (map geo_City geo)) ∅ = Ok M /\
    (forall s, In s (unique (map air_City air)) ->
       (is_Some (M !! s) <-> (85 < max_score s (unique (map geo_City geo)))%Q) /\
       (forall m, M !! s = Some m ->
          In m (unique (map geo_City geo)) /\
          (ratio s m == max_score s (unique (map geo_City geo)))%Q)) /\
    (forall s, ~ In s (unique (map air_City air)) -> M !! s = None) /\
    (forall r, In r air -> M !! air_City r = None ->
       In r (map (set_air_City (replace M)) air) /\ set_air_City (replace M) r = r).
Proof.
  intros Hgeo.
  assert (HG : unique (map geo_City geo) <> []).
  { apply unique_nonempty. destruct geo; [congruence | discriminate]. }
  destruct (match_cities_spec (unique (map air_City air)) _ HG ∅) as (M & HM & Hin & Hout).
  exists M. split_ands; [exact HM | | |].
  - intros s Hs. rewrite (Hin s Hs).
    destruct (accepted_spec s _ HG) as [Hiff Hbest].
    destruct (accepted s (unique (map geo_City geo))) as [m|] eqn:E.
    + split; [exact Hiff | exact Hbest].
    + rewrite lookup_empty. split; [exact Hiff | intros m [=]].
  - intros s Hs. rewrite (Hout s Hs). apply lookup_empty.
  - intros r Hr Hnone.
    assert (Hfix : set_air_City (replace M) r = r).
    { unfold set_air_City, replace. rewrite Hnone. destruct r; reflexivity. }
    split; [|exact Hfix].
    apply in_map_iff. exists r. split; assumption.
Qed.

End CityMapping.

(** ** Join engine: properties *)

Lemma dropna_merge_left (air : list AirRow) (geo : list GeoRow) :
  dropna (merge_left air geo) = flat_map (output_rows geo) air.
Proof.
  unfold merge_left, dropna, output_rows, dropna.
  induction air as [|a air IH]; cbn [flat_map].
  - reflexivity.
  - rewrite List.filter_app, IH. reflexivity.
Qed.

Lemma dropna_joined (a : AirRow) (gs : list GeoRow) :
  dropna (map (fun g => joined a (geo_lat g) (geo_lon g)) gs)
  = map (fun g => joined a (geo_lat g) (geo_lon g)) (List.filter has_coords gs).
Proof.
  unfold dropna. induction gs as [|g gs IH]; cbn [map List.filter].
  - reflexivity.
  - change (notna (joined a (geo_lat g) (geo_lon g))) with (has_coords g).
    destruct (has_coords g); cbn [map]; rewrite IH; reflexivity.
Qed.

Lemma filter_filter_andb {A} (p q : A -> bool) (l : list A) :
  List.filter q (List.filter p l) = List.filter (fun x => p x && q x) l.
Proof.
  induction l as [|x l IH]; cbn [List.filter]; [reflexivity|].
  destruct (p x); cbn [andb List.filter]; [destruct (q x)|]; rewrite IH; reflexivity.
Qed.

Lemma output_rows_eq (geo : list GeoRow) (a : AirRow) :
  output_rows geo a
  = map (fun g => joined a (geo_lat g) (geo_lon g))
        (List.filter (fun g => same_key a g && has_coords g) geo).
Proof.
  unfold output_rows, merge_row.
  rewrite <- filter_filter_andb.
  destruct (List.filter (same_key a) geo) as [|g gs].
  - reflexivity.
  - apply dropna_joined.
Qed.

Lemma same_key_geo_key (a : AirRow) (g : GeoRow) :
  same_key a g = true <-> geo_key g = (air_City a, air_Country a).
Proof.
  unfold same_key, geo_key.
  rewrite andb_true_iff, !bool_decide_eq_true.
  split; [intros [-> ->]; reflexivity | intros [= -> ->]; split; reflexivity].
Qed.

Lemma distinct_keys_one_match (a : AirRow) (geo : list GeoRow) :
  List.NoDup (map geo_key geo) -> (length (List.filter (same_key a) geo) <= 1)%nat.
Proof.
  induction geo as [|g geo IH]; cbn [map List.filter]; [cbn; lia|].
  intros Hnd. apply List.NoDup_cons_iff in Hnd as [Hfresh Hnd].
  destruct (same_key a g) eqn:E; [|apply IH, Hnd].
  apply same_key_geo_key in E.
  assert (Hnone : List.filter (same_key a) geo = []).
  { destruct (List.filter (same_key a) geo) as [|g' gs] eqn:F; [reflexivity|].
    exfalso. apply Hfresh.
    assert (Hg' : In g' (List.filter (same_key a) geo)) by (rewrite F; left; reflexivity).
    apply List.filter_In in Hg' as [Hin Hk]. apply same_key_geo_key in Hk.
    apply in_map_iff. exists g'. split; [congruence | exact Hin]. }
  rewrite Hnone. cbn. lia.
Qed.

Lemma filter_andb_length {A} (p q : A -> bool) (l : list A) :
  (length (List.filter (fun x => p x && q x) l) <= length (List.filter p l))%nat.
Proof.
  induction l as [|x l IH]; cbn [List.filter]; [lia|].
  destruct (p x); cbn [andb]; [destruct (q x)|]; cbn [length]; lia.
Qed.

Lemma merge_left_matched (air : list AirRow) (geo : list GeoRow) (a : AirRow) (g : GeoRow) :
  In a air -> In g geo -> same_key a g = true ->
  In (joined a (geo_lat g) (geo_lon g)) (merge_left air geo).
Proof.
  intros Ha Hg Hk. unfold merge_left. apply in_flat_map. exists a. split; [exact Ha|].
  unfold merge_row.
  assert (Hin : In g (List.filter (same_key a) geo)) by (apply List.filter_In; tauto).
  destruct (List.filter (same_key a) geo) as [|g' gs]; [destruct Hin|].
  apply in_map_iff. exists g. split; [reflexivity | exact Hin].
Qed.

Lemma dropna_coords (df : list FinalRow) :
  Forall (fun r => lat r <> None /\ lon r <> None) (dropna df).
Proof.
  apply List.Forall_forall. intros r Hr. apply List.filter_In in Hr as [_ Hr].
  unfold notna in Hr. destruct (lat r), (lon r); try discriminate. split; discriminate.
Qed.

Section JoinEngine.
Context `{Scorer}.

(** With a gazetteer that is not empty, lines 57-71 bind [df_final] to the
    filtered left join of the rewritten measurements. *)
Lemma df_final_spec (air : list AirRow) (geo : list GeoRow) :
  geo <> [] ->
  exists M,
    match_cities (unique (map air_City air)) (unique (map geo_City geo)) ∅ = Ok M /\
    df_final air geo
    = Ok (dropna (merge_left (map (set_air_City (replace M)) air) geo)).
Proof.
  intros Hgeo.
  destruct (city_matcher_loop_total air geo Hgeo) as (M & HM).
  exists M. split; [exact HM|].
  unfold df_final, join_block. destruct geo as [|g geo]; [congruence|].
  rewrite HM. reflexivity.
Qed.


(** C5, as the code has it: with a gazetteer that is not empty, [df_final]
    is the concatenation, in the order of the measurement rows, of the rows
    each rewritten measurement row produces; a measurement row produces one
    row for every gazetteer row that has its (City, Country) key and both
    coordinates; so it produces at most one row when no two gazetteer rows
    share a key. *)
Theorem output_rows_per_measurement (air : list AirRow) (geo : list GeoRow) :
  geo <> [] ->
  exists M,
    match_cities (unique (map air_City air)) (unique (map geo_City geo)) ∅ = Ok M /\
    df_final air geo
    = Ok (flat_map (fun a => output_rows geo (set_air_City (replace M) a)) air) /\
    (forall a, output_rows geo a
               = map (fun g => joined a (geo_lat g) (geo_lon g))
                     (List.filter (fun g => same_key a g && has_coords g) geo)) /\
    (List.NoDup (map geo_key geo) -> forall a, (length (output_rows geo a) <= 1)%nat).
Proof.
  intros Hgeo. destruct (df_final_spec air geo Hgeo) as (M & HM & Hfinal).
  exists M. split_ands; [exact HM | | apply output_rows_eq |].
  - rewrite Hfinal, dropna_merge_left, flat_map_concat_map, map_map,
      <- flat_map_concat_map. reflexivity.
  - intros Hnd a. rewrite output_rows_eq, length_map.
    pose proof (filter_andb_length (same_key a) has_coords geo).
    pose proof (distinct_keys_one_match a geo Hnd). lia.
Qed.

(** C6: with a gazetteer that is not empty, [df_final] is bound to a table
    all of whose rows have a latitude and a longitude; a row of the merged
    frame whose key matched a gazetteer row without latitude is in the
    merged frame and not in [df_final]. *)
Theorem final_rows_have_coordinates (air : list AirRow) (geo : list GeoRow) :
  geo <> [] ->
  exists M out,
    match_cities (unique (map air_City air)) (unique (map geo_City geo)) ∅ = Ok M /\
    df_final air geo = Ok out /\
    Forall (fun r => lat r <> None /\ lon r <> None) out /\
    (forall a g,
       In a (map (set_air_City (replace M)) air) -> In g geo ->
       same_key a g = true -> geo_lat g = None ->
       In (joined a None (geo_lon g)) (merge_left (map (set_air_City (replace M)) air) geo) /\
       ~ In (joined a None (geo_lon g)) out).
Proof.
  intros Hgeo. destruct (df_final_spec air geo Hgeo) as (M & HM & Hfinal).
  exists M, (dropna (merge_left (map (set_air_City (replace M)) air) geo)).
  split_ands; [exact HM | exact Hfinal | apply dropna_coords |].
  intros a g Ha Hg Hk Hlat. split.
  - rewrite <- Hlat. apply merge_left_matched; assumption.
  - intros Hin. pose proof (dropna_coords (merge_left (map (set_air_City (replace M)) air) geo)) as Hall.
    rewrite List.Forall_forall in Hall. destruct (Hall _ Hin) as [Hl _].
    apply Hl. reflexivity.
Qed.

End JoinEngine.

(** ** The script and its cache: properties *)

Section Script.
Context `{UnicodeDB} `{Pycountry} `{Scorer}.

Lemma run_script_valid (fs : Files) (cache : Cache) :
  cache_valid fs cache ->
  run_script fs cache = (df_final (loaded_air fs) (loaded_geo fs), full_cache fs).
Proof.
  intros [Hair Hgeo]. unfold run_script, cached_load_air, cached_load_geo.
  rewrite load_air_quality_data_eq. fold (loaded_air fs).
  destruct cache as [a g]; cbn in *.
  destruct Hair as [-> | ->]; destruct Hgeo as [-> | ->]; reflexivity.
Qed.

Lemma cache_valid_empty (fs : Files) : cache_valid fs empty_cache.
Proof. split; left; reflexivity. Qed.

Lemma cache_valid_full (fs : Files) : cache_valid fs (full_cache fs).
Proof. split; right; reflexivity. Qed.

Lemma cache_valid_iter (fs : Files) (n : nat) :
  cache_valid fs (Nat.iter n (fun cache => snd (run_script fs cache)) empty_cache).
Proof.
  destruct n as [|n]; cbn [Nat.iter nat_rect].
  - apply cache_valid_empty.
  - induction n as [|n IH]; cbn [Nat.iter nat_rect] in *.
    + rewrite (run_script_valid fs _ (cache_valid_empty fs)). apply cache_valid_full.
    + rewrite (run_script_valid fs _ IH). apply cache_valid_full.
Qed.

Lemma pipeline_eq (air : list AirCsv) (geo : list GeoCsv) :
  pipeline air geo
  = df_final (map (set_air_City normalize) (map rename_air air)) (load_city_coordinates geo).
Proof.
  unfold pipeline. rewrite (run_script_valid _ _ (cache_valid_empty _)). reflexivity.
Qed.

(** C9: a run of the script is a function of the two input tables and of
    the cache, and the cache does not change the table: after any number of
    earlier runs on the same files in the same process, a run produces the
    table a fresh process produces. *)
Theorem reruns_give_same_table (fs : Files) (n : nat) :
  fst (run_script fs (Nat.iter n (fun cache => snd (run_script fs cache)) empty_cache))
  = pipeline (global_air_pollution_data fs) (geonames_cleaned fs).
Proof.
  rewrite (run_script_valid fs _ (cache_valid_iter fs n)).
  rewrite pipeline_eq. reflexivity.
Qed.

(** C4: with an empty gazetteer the block of lines 57-71 is skipped: nothing
    raises there and no city is rewritten, but [df_final] stays unbound, its
    first use raises [NameError], and the run produces no table. *)
Theorem empty_gazetteer_leaves_df_final_unbound (csv : list AirCsv) (air : list AirRow) :
  join_block air [] = Ok None /\
  df_final air [] = Raise NameError /\
  pipeline csv [] = Raise NameError.
Proof.
  split; [reflexivity|]. split; [reflexivity|].
  rewrite pipeline_eq. reflexivity.
Qed.

(** C1: on the measurement row (France, Parris) and the gazetteer row (Paris,
    FR) the run produces the empty table: the city is normalised, the country
    stays France, and no gazetteer row has the key (city, France), whatever
    the matcher answered. *)
Theorem end_to_end_france_parris :
  pipeline [measurement_france] [gazetteer_paris] = Ok [] /\
  pipeline [measurement_france] [gazetteer_paris] <> Ok [row_paris 48.85 2.35].
Proof.
  assert (Hrun : pipeline [measurement_france] [gazetteer_paris] = Ok []).
  { rewrite pipeline_eq.
    destruct (df_final_spec (map (set_air_City normalize) (map rename_air [measurement_france]))
                (load_city_coordinates [gazetteer_paris])) as (M & _ & ->); [discriminate|].
    f_equal. cbn [map]. unfold merge_left. cbn [flat_map]. rewrite app_nil_r.
    unfold merge_row. cbn [List.filter load_city_coordinates map].
    replace (same_key _ _) with false; [reflexivity|].
    unfold same_key. cbn [air_Country set_air_City rename_air geo_Country country_name
                            measurement_france country_code gazetteer_paris].
    rewrite (bool_decide_eq_false_2 (py "France" = py "FR")); [|discriminate].
    symmetry. apply andb_false_r. }
  split; [exact Hrun | rewrite Hrun; discriminate].
Qed.

End Script.

(** ** The examples of the specification, evaluated *)

(** With the country given as a code the row is joined and carries the
    coordinates of the gazetteer row. *)
Example end_to_end_with_country_code :
  @pipeline ascii_only_db sample_pycountry fuzz_ratio [measurement_fr] [gazetteer_paris]
  = Ok [row_paris 48.85 2.35].
Proof. vm_compute. reflexivity. Qed.

(** The country database knows France, and [lookup] is never reached. *)
Example lookup_france :
  @lookup sample_pycountry (py "France") = Some france /\ alpha_2 france = py "FR".
Proof. split; vm_compute; reflexivity. Qed.

Example normalize_parris : @normalize ascii_only_db (py "Parris") = py "parris".
Proof. vm_compute. reflexivity. Qed.

Example normalize_strips : @normalize ascii_only_db (py "St. John's 2") = py "stjohns2".
Proof. vm_compute. reflexivity. Qed.

(** An exact candidate wins, also when it is not the first one. *)
Example match_newyork :
  @extractOne fuzz_ratio (py "newyork") [py "newark"; py "newyork"]
  = Some (py "newyork", (1 - 0 / 14) * 100, 1%nat)%Q /\
  @accepted fuzz_ratio (py "newyork") [py "newark"; py "newyork"] = Some (py "newyork").
Proof. split; vm_compute; reflexivity. Qed.

Example no_match_zzzqqq :
  @accepted fuzz_ratio (py "zzzqqq") [py "newyork"] = None.
Proof. vm_compute. reflexivity. Qed.

Example match_parris :
  @accepted fuzz_ratio (py "parris") [py "paris"] = Some (py "paris") /\
  (@ratio fuzz_ratio (py "parris") (py "paris") == 1000 # 11)%Q.
Proof. split; vm_compute; reflexivity. Qed.

(** The guard of line 57 is what keeps line 61 from raising. *)
Example matcher_on_no_choice :
  @match_cities fuzz_ratio [py "parris"] [] ∅ = Raise TypeError.
Proof. reflexivity. Qed.

(** ** Counterexample and witnesses *)

(** C5, as stated, fails: one measurement row and two gazetteer rows with
    its key give two output rows. *)
Lemma two_gazetteer_rows_two_output_rows :
  @pipeline ascii_only_db sample_pycountry fuzz_ratio
    [measurement_fr] [gazetteer_paris; gazetteer_paris_bis]
  = Ok [row_paris 48.85 2.35; row_paris 48.86 2.36] /\
  ~ (length [row_paris 48.85 2.35; row_paris 48.86 2.36] <= length [measurement_fr])%nat.
Proof. split; [vm_compute; reflexivity | cbn; lia]. Qed.

(** C3 at the frames of the end-to-end example: the gazetteer is not empty,
    the loop ends, and parris is mapped to paris. *)
Lemma city_matcher_invariant_witness :
  [geo_paris] <> [] /\
  exists M,
    @match_cities fuzz_ratio (unique (map air_City [air_parris_fr]))
      (unique (map geo_City [geo_paris])) ∅ = Ok M /\
    M !! py "parris" = Some (py "paris").
Proof.
  split; [discriminate|].
  destruct (@city_matcher_invariant fuzz_ratio [air_parris_fr] [geo_paris])
    as (M & HM & Hin & _); [discriminate|].
  exists M. split; [exact HM|].
  destruct (Hin (py "parris")) as [Hiff Hbest]; [left; reflexivity|].
  destruct (proj2 Hiff) as [m Hm]; [vm_compute; reflexivity|].
  destruct (Hbest m Hm) as [[<-|[]] _]. exact Hm.
Defined.

(** C5 as amended, at a gazetteer of one row: the keys are distinct and the
    measurement row produces at most one row. *)
Lemma output_rows_per_measurement_witness :
  [geo_paris] <> [] /\
  List.NoDup (map geo_key [geo_paris]) /\
  exists M,
    @df_final fuzz_ratio [air_parris_fr] [geo_paris]
    = Ok (output_rows [geo_paris] (set_air_City (replace M) air_parris_fr)) /\
    (length (output_rows [geo_paris] (set_air_City (replace M) air_parris_fr)) <= 1)%nat.
Proof.
  assert (Hnd : List.NoDup (map geo_key [geo_paris])).
  { constructor; [intros [] | constructor]. }
  split; [discriminate|]. split; [exact Hnd|].
  destruct (@output_rows_per_measurement fuzz_ratio [air_parris_fr] [geo_paris])
    as (M & _ & Hfinal & _ & Hone); [discriminate|].
  exists M. split; [|apply Hone, Hnd].
  rewrite Hfinal. cbn [flat_map]. rewrite app_nil_r. reflexivity.
Defined.

(** C6 at a gazetteer whose first row has no latitude: the table is
    produced and its rows have coordinates. *)
Lemma final_rows_have_coordinates_witness :
  [geo_paris_no_lat; geo_paris] <> [] /\
  exists out,
    @df_final fuzz_ratio [air_parris_fr] [geo_paris_no_lat; geo_paris] = Ok out /\
    Forall (fun r => lat r <> None /\ lon r <> None) out.
Proof.
  split; [discriminate|].
  destruct (@final_rows_have_coordinates fuzz_ratio [air_parris_fr] [geo_paris_no_lat; geo_paris])
    as (M & out & _ & Hfinal & Hall & _); [discriminate|].
  exists out. split; [exact Hfinal | exact Hall].
Defined.

(** The row without latitude is dropped and the other one is kept. *)
Example null_latitude_row_dropped :
  @df_final fuzz_ratio [air_parris_fr] [geo_paris_no_lat; geo_paris]
  = Ok [row_paris 48.85 2.35].
Proof. vm_compute. reflexivity. Qed.

(** ** Further properties of the matcher *)

Section FirstBest.
Context `{Scorer}.

Lemma first_best_extend (query : str) (scanned extra : list str) m s j :
  first_best query scanned m s j ->
  (forall g, In g extra -> (ratio query g <= s)%Q) ->
  first_best query (scanned ++ extra) m s j.
Proof.
  intros (Hat & Hs & Hearlier & Hall) Hextra.
  pose proof (lookup_lt_Some _ _ _ Hat) as Hj.
  unfold first_best. split_ands.
  - apply lookup_app_l_Some, Hat.
  - exact Hs.
  - intros k g Hk Hg. rewrite lookup_app_l in Hg by lia. eapply Hearlier; eassumption.
  - intros g Hg. apply in_app_or in Hg as [Hg|Hg]; [apply Hall, Hg | apply Hextra, Hg].
Qed.

Lemma first_best_new (query : str) (scanned extra : list str) (choice : str) :
  (forall g, In g scanned -> (ratio query g < ratio query choice)%Q) ->
  (forall g, In g extra -> (ratio query g <= ratio query choice)%Q) ->
  first_best query (scanned ++ choice :: extra) choice (ratio query choice) (length scanned).
Proof.
  intros Hscanned Hextra. unfold first_best. split_ands.
  - apply list_lookup_middle. reflexivity.
  - reflexivity.
  - intros k g Hk Hg. rewrite lookup_app_l in Hg by exact Hk.
    apply Hscanned, list_elem_of_In, list_elem_of_lookup. exists k. exact Hg.
  - intros g Hg. apply in_app_or in Hg as [Hg|[<-|Hg]].
    + apply Qlt_le_weak, Hscanned, Hg.
    + apply Qle_refl.
    + apply Hextra, Hg.
Qed.

Lemma extractOne_loop_first (query : str) (rest : list str) :
  forall (scanned : list str) (score_cutoff : Q) (result : option (str * Q * nat)),
  scan_inv query scanned score_cutoff result ->
  (result = None -> rest <> []) ->
  exists m s j,
    extractOne_loop query rest (length scanned) score_cutoff result = Some (m, s, j) /\
    first_best query (scanned ++ rest) m s j.
Proof.
  induction rest as [|choice rest IH]; intros scanned score_cutoff result Hinv Hne.
  - destruct result as [[[m s] j]|]; [|exfalso; apply Hne; reflexivity].
    destruct Hinv as [-> Hfb]. exists m, s, j. rewrite app_nil_r. split; [reflexivity | exact Hfb].
  - assert (Hcut : (0 <= score_cutoff)%Q).
    { destruct result as [[[m s] j]|]; cbn in Hinv.
      - destruct Hinv as [-> (_ & -> & _)]. apply ratio_range.
      - destruct Hinv as [_ ->]. apply Qle_refl. }
    pose proof (ratio_range query choice) as Hrange.
    assert (Htop : forall g : str, (ratio query g <= 100)%Q)
      by (intros g; apply ratio_range).
    cbn [extractOne_loop].
    destruct (Qle_bool score_cutoff (ratio_cutoff query choice score_cutoff) &&
              match result with
              | Some (_, result_score, _) =>
                  Qltb result_score (ratio_cutoff query choice score_cutoff)
              | None => true
              end) eqn:Hkeep.
    + (* kept: every scanned choice scores less *)
      apply andb_true_iff in Hkeep as [Hle Hbeat]. apply Qle_bool_iff in Hle.
      assert (Hkept : ratio_cutoff query choice score_cutoff = ratio query choice).
      { destruct (ratio_cutoff_cases query choice score_cutoff) as [[_ E]|[Hlt E]];
          [exact E | rewrite E in Hle; lra]. }
      rewrite Hkept in *.
      assert (Hless : forall g, In g scanned -> (ratio query g < ratio query choice)%Q).
      { destruct result as [[[m0 s0] j0]|]; cbn in Hinv.
        - destruct Hinv as [-> (_ & _ & _ & Hall)]. apply Qltb_true in Hbeat.
          intros g Hg. specialize (Hall g Hg). lra.
        - destruct Hinv as [-> _]. intros g []. }
      destruct (Qeq_bool (ratio query choice) 100) eqn:Hopt.
      * apply Qeq_bool_iff in Hopt. exists choice, (ratio query choice), (length scanned).
        split; [reflexivity|]. apply first_best_new; [exact Hless|].
        intros g _. specialize (Htop g). lra.
      * destruct (IH (scanned ++ [choice]) (ratio query choice)
                     (Some (choice, ratio query choice, length scanned)))
          as (m & s & j & Hrun & Hfb).
        { cbn. split; [reflexivity|]. apply first_best_new; [exact Hless | intros g []]. }
        { discriminate. }
        rewrite length_app, Nat.add_1_r in Hrun. rewrite <- app_assoc in Hfb.
        exists m, s, j. split; [exact Hrun | exact Hfb].
    + (* passed over: the kept choice scores at least as much *)
      destruct result as [[[m0 s0] j0]|]; cbn in Hinv.
      2:{ exfalso. rewrite andb_true_r in Hkeep. apply Qle_bool_false in Hkeep.
          destruct (ratio_cutoff_cases query choice score_cutoff) as [[Hle E]|[Hlt E]];
            rewrite E in Hkeep; lra. }
      destruct Hinv as [-> Hfb].
      assert (Hbelow : (ratio query choice <= s0)%Q /\
                       ((ratio_cutoff query choice s0 == 100)%Q -> (100 <= s0)%Q)).
      { destruct (ratio_cutoff_cases query choice s0) as [[Hle E]|[Hlt E]];
          rewrite E in *.
        - apply andb_false_iff in Hkeep as [Hk|Hk].
          + apply Qle_bool_false in Hk. lra.
          + apply Qltb_false in Hk. split; [lra | intros; lra].
        - split; [lra | intros; lra]. }
      destruct Hbelow as [Hbelow Hfull].
      destruct (Qeq_bool (ratio_cutoff query choice s0) 100) eqn:Hopt.
      * apply Qeq_bool_iff in Hopt. specialize (Hfull Hopt).
        exists m0, s0, j0. split; [reflexivity|].
        apply first_best_extend; [exact Hfb|].
        intros g _. specialize (Htop g). lra.
      * destruct (IH (scanned ++ [choice]) s0 (Some (m0, s0, j0))) as (m & s & j & Hrun & Hfb').
        { cbn. split; [reflexivity|]. apply first_best_extend; [exact Hfb|].
          intros g [<-|[]]. exact Hbelow. }
        { discriminate. }
        rewrite length_app, Nat.add_1_r in Hrun. rewrite <- app_assoc in Hfb'.
        exists m, s, j. split; [exact Hrun | exact Hfb'].
Qed.

(** X1: on a list of choices that is not empty [extractOne] answers with the
    first choice of best score: the answer is the choice at the returned
    index, its score is the returned score, every earlier choice scores
    strictly less and no choice scores more. *)
Theorem extractOne_first_best (query : str) (choices : list str) :
  choices <> [] ->
  exists m j,
    extractOne query choices = Some (m, ratio query m, j) /\
    choices !! j = Some m /\
    (forall k g, (k < j)%nat -> choices !! k = Some g ->
       (ratio query g < ratio query m)%Q) /\
    (forall g, In g choices -> (ratio query g <= ratio query m)%Q).
Proof.
  intros Hne. unfold extractOne.
  destruct (extractOne_loop_first query choices [] 0%Q None)
    as (m & s & j & Hrun & Hat & -> & Hearlier & Hall).
  - cbn. split; reflexivity.
  - intros _. exact Hne.
  - exists m, j. split_ands; [exact Hrun | exact Hat | exact Hearlier | exact Hall].
Qed.


End FirstBest.

(** ** Further properties of [unique] *)

Lemma unique_from_sublist (col seen : list str) : sublist (unique_from seen col) col.
Proof.
  revert seen. induction col as [|y col IH]; intros seen; cbn [unique_from].
  - constructor.
  - destruct (bool_decide (y ∈ seen)); [apply sublist_cons | apply sublist_skip]; apply IH.
Qed.

Lemma unique_from_fixed (col seen : list str) :
  List.NoDup col -> (forall x, In x col -> ~ In x seen) -> unique_from seen col = col.
Proof.
  revert seen. induction col as [|y col IH]; intros seen Hnd Hfresh; cbn [unique_from].
  - reflexivity.
  - apply List.NoDup_cons_iff in Hnd as [Hy Hnd].
    rewrite bool_decide_eq_false_2.
    + f_equal. apply IH; [exact Hnd|].
      intros x Hx [<-|Hs]; [contradiction|]. apply (Hfresh x); [right; exact Hx | exact Hs].
    + rewrite list_elem_of_In. apply Hfresh. left; reflexivity.
Qed.

(** X3: [unique] keeps exactly the values of the column, each once, in the
    order of the column, and changes nothing on a column it produced. *)
Theorem unique_distinct_same_values (col : list str) :
  List.NoDup (unique col) /\
  (forall x, In x (unique col) <-> In x col) /\
  sublist (unique col) col /\
  unique (unique col) = unique col.
Proof.
  split_ands.
  - apply unique_from_NoDup.
  - apply unique_In.
  - apply unique_from_sublist.
  - unfold unique at 1. apply unique_from_fixed; [apply unique_from_NoDup | intros x _ []].
Qed.

(** ** A city the gazetteer has is matched to itself *)

Lemma lcs_cons (x y : N) (s1 s2 : str) :
  lcs (x :: s1) (y :: s2)
  = if N.eqb x y then S (lcs s1 s2) else Nat.max (lcs s1 (y :: s2)) (lcs (x :: s1) s2).
Proof. reflexivity. Qed.

Lemma lcs_same (s : str) : lcs s s = length s.
Proof.
  induction s as [|x s IH]; [reflexivity|].
  rewrite lcs_cons, N.eqb_refl, IH. reflexivity.
Qed.

Lemma lcs_full (s1 s2 : str) :
  lcs s1 s2 = length s1 -> length s1 = length s2 -> s1 = s2.
Proof.
  revert s2. induction s1 as [|x s1 IH]; intros [|y s2] Hl Hlen; try discriminate.
  - reflexivity.
  - rewrite lcs_cons in Hl. cbn [length] in *.
    destruct (N.eqb x y) eqn:E.
    + apply N.eqb_eq in E as ->. f_equal. apply IH; lia.
    + pose proof (lcs_le_length_l s1 (y :: s2)).
      pose proof (lcs_le_length_r (x :: s1) s2). lia.
Qed.

Lemma indel_distance_zero (s1 s2 : str) : indel_distance s1 s2 = 0%nat <-> s1 = s2.
Proof.
  unfold indel_distance. split.
  - intros Hd. pose proof (lcs_le_length_l s1 s2). pose proof (lcs_le_length_r s1 s2).
    apply lcs_full; lia.
  - intros <-. rewrite lcs_same. lia.
Qed.

Lemma indel_ratio_100 (s1 s2 : str) : (indel_ratio s1 s2 == 100)%Q <-> s1 = s2.
Proof.
  rewrite <- indel_distance_zero.
  unfold indel_ratio, indel_normalized_distance.
  destruct (Nat.eqb (length s1 + length s2) 0) eqn:E.
  - apply Nat.eqb_eq in E. split; [intros _ | intros _; lra].
    unfold indel_distance. lia.
  - apply Nat.eqb_neq in E.
    assert (Hm : ~ (inject_Z (Z.of_nat (length s1 + length s2)) == 0)%Q).
    { unfold Qeq. cbn. lia. }
    split.
    + intros Hr.
      assert (Hq : (inject_Z (Z.of_nat (indel_distance s1 s2))
                    / inject_Z (Z.of_nat (length s1 + length s2)) == 0)%Q) by lra.
      assert (Hd : (inject_Z (Z.of_nat (indel_distance s1 s2)) == 0)%Q).
      { rewrite <- (Qmult_div_r _ _ Hm), Hq. apply Qmult_0_r. }
      unfold Qeq in Hd. cbn in Hd. lia.
    + intros ->. cbn [Z.of_nat]. unfold Qdiv. rewrite Qmult_0_l. lra.
Qed.

Lemma accepted_exact (s : str) (G : list str) :
  In s G -> @accepted fuzz_ratio s G = Some s.
Proof.
  intros Hs. unfold accepted.
  destruct (@extractOne_best fuzz_ratio s G) as (m & j & -> & Hm & Hmax);
    [intros ->; exact Hs|].
  pose proof (Hmax s Hs) as Hle. pose proof (@ratio_range fuzz_ratio s m) as Hrange.
  assert (Hself : (@ratio fuzz_ratio s s == 100)%Q) by (apply indel_ratio_100; reflexivity).
  assert (Hbest : (@ratio fuzz_ratio s m == 100)%Q) by lra.
  apply indel_ratio_100 in Hbest as <-.
  rewrite (proj2 (Qltb_true 85 (@ratio fuzz_ratio s s))) by lra. reflexivity.
Qed.

(** X4: with [fuzz.ratio] as scorer, a measurement row whose normalised city
    is a city of the gazetteer is mapped to that same city, so the rewriting
    of line 65 leaves the row as it was. *)
Theorem gazetteer_city_is_kept (air : list AirRow) (geo : list GeoRow) (r : AirRow) :
  In r air -> In (air_City r) (map geo_City geo) ->
  exists M,
    @match_cities fuzz_ratio (unique (map air_City air)) (unique (map geo_City geo)) ∅ = Ok M /\
    M !! air_City r = Some (air_City r) /\
    set_air_City (replace M) r = r.
Proof.
  intros Hr Hcity.
  assert (HG : unique (map geo_City geo) <> []).
  { apply unique_nonempty. intros E. rewrite E in Hcity. destruct Hcity. }
  destruct (@match_cities_spec fuzz_ratio (unique (map air_City air)) _ HG ∅)
    as (M & HM & Hin & _).
  assert (Hat : M !! air_City r = Some (air_City r)).
  { rewrite Hin by (apply unique_In, in_map, Hr).
    rewrite accepted_exact by (apply unique_In, Hcity). reflexivity. }
  exists M. split_ands; [exact HM | exact Hat |].
  unfold set_air_City, replace. rewrite Hat. destruct r; reflexivity.
Qed.

(** ** Further properties of the join *)

(** X5: a row is in the filtered left join exactly when it pairs a left row
    with a right row of the same (City, Country) key that has both
    coordinates, carrying the left row's cells and the right row's
    coordinates. *)
Theorem joined_rows_iff (air : list AirRow) (geo : list GeoRow) (r : FinalRow) :
  In r (dropna (merge_left air geo)) <->
  exists a g,
    In a air /\ In g geo /\ same_key a g = true /\ has_coords g = true /\
    r = joined a (geo_lat g) (geo_lon g).
Proof.
  rewrite dropna_merge_left, in_flat_map. split.
  - intros (a & Ha & Hr). rewrite output_rows_eq in Hr.
    apply in_map_iff in Hr as (g & <- & Hg).
    apply List.filter_In in Hg as [Hg Hk]. apply andb_true_iff in Hk as [Hk Hc].
    exists a, g. tauto.
  - intros (a & g & Ha & Hg & Hk & Hc & ->). exists a. split; [exact Ha|].
    rewrite output_rows_eq. apply in_map_iff. exists g. split; [reflexivity|].
    apply List.filter_In. split; [exact Hg|]. rewrite Hk, Hc. reflexivity.
Qed.



(** ** Further properties of the normaliser *)

Section NormalizerAscii.
Context `{UnicodeDB}.

Lemma lower_from_ascii (before s : str) :
  Forall (fun c => c < 128) s -> lower_from before s = map ascii_lower s.
Proof.
  intros Hs. revert before. induction Hs as [|c s Hc Hs IH]; intros before; cbn [lower_from map].
  - reflexivity.
  - apply N.ltb_lt in Hc. rewrite Hc, IH. reflexivity.
Qed.

(** X7: on ASCII text the normaliser does not consult the Unicode table: it
    lower-cases the capitals A-Z and keeps the letters and digits; so the
    normal form of a concatenation of ASCII texts is the concatenation of
    their normal forms. *)
Theorem normalize_ascii (s t : str) :
  Forall (fun c => c < 128) s -> Forall (fun c => c < 128) t ->
  normalize s = strip_non_alnum (map ascii_lower s) /\
  normalize (s ++ t) = normalize s ++ normalize t.
Proof.
  intros Hs Ht. unfold normalize, lower.
  rewrite !lower_from_ascii by (try apply Forall_app; auto).
  split; [reflexivity|].
  unfold strip_non_alnum. rewrite map_app. apply List.filter_app.
Qed.

End NormalizerAscii.

(** ** Further properties of the run *)

Section Matched.
Context `{Scorer}.

Lemma accepted_score (s m : str) (G : list str) :
  accepted s G = Some m -> In m G /\ (85 < ratio s m)%Q.
Proof.
  intros Hacc. destruct G as [|g G]; [discriminate|].
  destruct (accepted_spec s (g :: G)) as [Hiff Hbest]; [discriminate|].
  destruct (Hbest m Hacc) as [Hin Heq]. split; [exact Hin|].
  rewrite Heq. apply Hiff. rewrite Hacc. eexists; reflexivity.
Qed.

(** An entry of the mapping built from the empty mapping is an accepted
    match. *)
Lemma city_mapping_entry (cities G : list str) (M : gmap str str) (s m : str) :
  match_cities cities G ∅ = Ok M -> M !! s = Some m -> accepted s G = Some m.
Proof.
  intros HM Hs. destruct G as [|g G].
  - destruct cities as [|city rest]; [|discriminate].
    injection HM as <-. rewrite lookup_empty in Hs. discriminate.
  - destruct (match_cities_spec cities (g :: G) ltac:(discriminate) ∅) as (M' & HM' & Hin & Hout).
    rewrite HM in HM'. injection HM' as <-.
    destruct (decide (s ∈ cities)) as [Hc|Hc]; rewrite list_elem_of_In in Hc.
    + rewrite (Hin s Hc) in Hs. destruct (accepted s (g :: G)); [exact Hs|].
      rewrite lookup_empty in Hs. discriminate.
    + rewrite (Hout s Hc), lookup_empty in Hs. discriminate.
Qed.

End Matched.

Section Run.
Context `{UnicodeDB} `{Pycountry} `{Scorer}.

(** X6: every row of the table a run produces comes from a measurement row
    and a gazetteer row: the country is the measurement's raw country cell
    and equals the gazetteer's country code, the city is the gazetteer's
    normalised name, which is the measurement's normalised city or scores
    above 85 against it, the four readings are the measurement's and the
    coordinates are the gazetteer's, both present. *)
Theorem output_row_provenance (air : list AirCsv) (geo : list GeoCsv) (out : list FinalRow) :
  pipeline air geo = Ok out ->
  forall r, In r out ->
  exists m g,
    In m air /\ In g geo /\
    Country r = country_name m /\ country_code g = country_name m /\
    City r = normalize (geonames_name g) /\
    (City r = normalize (city_name m) \/
     (85 < ratio (normalize (city_name m)) (City r))%Q) /\
    AQI r = aqi_value m /\ PM25 r = pm25_aqi_value m /\
    NO2 r = no2_aqi_value m /\ Ozone r = ozone_aqi_value m /\
    lat r = latitude g /\ lon r = longitude g /\
    is_Some (lat r) /\ is_Some (lon r).
Proof.
  intros Hrun r Hr. rewrite pipeline_eq in Hrun.
  assert (Hgeo : load_city_coordinates geo <> []).
  { intros E. rewrite E in Hrun. discriminate. }
  destruct (df_final_spec (map (set_air_City normalize) (map rename_air air))
              (load_city_coordinates geo) Hgeo) as (M & HM & Hfinal).
  rewrite Hfinal in Hrun. injection Hrun as <-.
  apply joined_rows_iff in Hr as (a & g & Ha & Hg & Hk & Hc & ->).
  apply in_map_iff in Ha as (a1 & <- & Ha1).
  apply in_map_iff in Ha1 as (a0 & <- & Ha0).
  apply in_map_iff in Ha0 as (m & <- & Hm).
  unfold load_city_coordinates in Hg. apply in_map_iff in Hg as (g1 & <- & Hg1).
  apply same_key_geo_key in Hk. unfold geo_key in Hk.
  cbn [set_air_City rename_air air_Country air_City geo_City geo_Country] in Hk.
  injection Hk as Hcity Hcountry.
  unfold has_coords in Hc. cbn [geo_lat geo_lon] in Hc.
  exists m, g1.
  cbn [joined Country City AQI PM25 NO2 Ozone lat lon set_air_City rename_air
       air_Country air_City air_AQI air_PM25 air_NO2 air_Ozone geo_lat geo_lon].
  split_ands; try reflexivity; try assumption.
  - symmetry. exact Hcity.
  - unfold replace. destruct (M !! normalize (city_name m)) as [m'|] eqn:E;
      cbn [default from_option id].
    + right. eapply accepted_score, city_mapping_entry; eassumption.
    + left. reflexivity.
  - destruct (latitude g1); [eexists; reflexivity|discriminate].
  - destruct (latitude g1); [|discriminate].
    destruct (longitude g1); [eexists; reflexivity|discriminate].
Qed.


(** X8: the first run in a process fills both cache entries, and a later run
    does not read the files again: whatever the files then hold, it returns
    the table of the files of the first run. *)
Theorem later_run_serves_cached_tables (fs fs' : Files) :
  snd (run_script fs empty_cache) = full_cache fs /\
  run_script fs' (snd (run_script fs empty_cache))
  = (pipeline (global_air_pollution_data fs) (geonames_cleaned fs), full_cache fs).
Proof.
  rewrite (run_script_valid fs _ (cache_valid_empty fs)). cbn [snd].
  split; [reflexivity|].
  rewrite pipeline_eq. reflexivity.
Qed.

End Run.

(** ** The selectors *)

Lemma str_leb_total (a b : str) : str_leb a b = true \/ str_leb b a = true.
Proof.
  revert b. induction a as [|x a IH]; intros [|y b]; cbn [str_leb]; auto.
  destruct (N.ltb_spec x y) as [Hxy|Hxy]; [auto|].
  destruct (N.ltb_spec y x) as [Hyx|Hyx]; [auto|].
  assert (x = y) as -> by lia. rewrite N.eqb_refl. apply IH.
Qed.

Lemma str_leb_trans (a b c : str) :
  str_leb a b = true -> str_leb b c = true -> str_leb a c = true.
Proof.
  revert b c. induction a as [|x a IH]; intros [|y b] [|z c]; cbn [str_leb]; auto; try discriminate.
  destruct (N.ltb_spec x y) as [Hxy|Hxy]; destruct (N.ltb_spec y z) as [Hyz|Hyz];
    destruct (N.ltb_spec x z) as [Hxz|Hxz]; auto; try lia;
    destruct (N.eqb_spec x y) as [Exy|Exy]; destruct (N.eqb_spec y z) as [Eyz|Eyz];
    destruct (N.eqb_spec x z) as [Exz|Exz]; try discriminate; try lia; auto.
  apply IH.
Qed.

#[export] Instance str_le_total : Total str_le.
Proof. intros a b. apply str_leb_total. Qed.

#[export] Instance str_le_trans : Transitive str_le.
Proof. intros a b c. apply str_leb_trans. Qed.

Lemma strongly_sorted_strict (l : list str) :
  StronglySorted str_le l -> List.NoDup l ->
  StronglySorted (fun a b => str_le a b /\ a <> b) l.
Proof.
  induction 1 as [|a l Hl IH Hall]; intros Hnd; constructor.
  - apply IH. apply List.NoDup_cons_iff in Hnd. tauto.
  - apply List.NoDup_cons_iff in Hnd as [Ha _].
    rewrite List.Forall_forall in *. intros b Hb. split; [apply Hall, Hb|].
    intros ->. contradiction.
Qed.

Lemma sorted_unique_spec (col : list str) :
  StronglySorted (fun a b => str_le a b /\ a <> b) (sorted (unique col)) /\
  (forall x, In x (sorted (unique col)) <-> In x col).
Proof.
  unfold sorted.
  pose proof (merge_sort_Permutation str_le (unique col)) as Hperm.
  split.
  - apply strongly_sorted_strict.
    + apply StronglySorted_merge_sort; typeclasses eauto.
    + eapply Permutation_NoDup; [symmetry; exact Hperm | apply unique_from_NoDup].
  - intros x. rewrite <- (unique_In col x). split; apply Permutation_in; [exact Hperm | symmetry; exact Hperm].
Qed.

Lemma in_nonempty {A} (l : list A) : l <> [] <-> exists x, In x l.
Proof.
  destruct l as [|x l]; split.
  - congruence.
  - intros [x []].
  - intros _. exists x. left; reflexivity.
  - discriminate.
Qed.

Lemma country_data_In (df : list FinalRow) (c : str) (r : FinalRow) :
  In r (Selectors.country_data df c) <-> In r df /\ Country r = c.
Proof.
  unfold Selectors.country_data. rewrite List.filter_In, bool_decide_eq_true. reflexivity.
Qed.

Lemma city_data_In (df : list FinalRow) (c : str) (r : FinalRow) :
  In r (Selectors.city_data df c) <-> In r df /\ City r = c.
Proof.
  unfold Selectors.city_data. rewrite List.filter_In, bool_decide_eq_true. reflexivity.
Qed.

(** X9: the country selector offers every country of the table once, in
    strictly increasing code point order, and nothing else. *)
Theorem countries_sorted_distinct (df : list FinalRow) :
  StronglySorted (fun a b => str_le a b /\ a <> b) (Selectors.countries df) /\
  (forall c, In c (Selectors.countries df) <-> exists r, In r df /\ Country r = c).
Proof.
  unfold Selectors.countries.
  destruct (sorted_unique_spec (map Country df)) as [Hsorted Hin].
  split; [exact Hsorted|].
  intros c. rewrite Hin, in_map_iff. split; intros (r & Hr1 & Hr2); exists r; tauto.
Qed.

(** X10: a country is offered by the selector exactly when the table has
    rows for it, and exactly then its city selector is not empty; the city
    selector offers the cities of the rows of that country, each once, in
    strictly increasing order; and each offered city has a row of that
    country among the rows shown for the city. *)
Theorem selected_country_has_rows (df : list FinalRow) (c : str) :
  (In c (Selectors.countries df) <-> Selectors.country_data df c <> []) /\
  (Selectors.cities_in_country df c <> [] <-> Selectors.country_data df c <> []) /\
  StronglySorted (fun a b => str_le a b /\ a <> b) (Selectors.cities_in_country df c) /\
  (forall city, In city (Selectors.cities_in_country df c) <->
     exists r, In r df /\ Country r = c /\ City r = city) /\
  (forall city, In city (Selectors.cities_in_country df c) ->
     exists r, In r (Selectors.country_data df c) /\ In r (Selectors.city_data df city)).
Proof.
  destruct (sorted_unique_spec (map City (Selectors.country_data df c))) as [Hsorted Hin].
  fold (Selectors.cities_in_country df c) in Hsorted, Hin.
  assert (Hcities : forall city, In city (Selectors.cities_in_country df c) <->
            exists r, In r df /\ Country r = c /\ City r = city).
  { intros city. rewrite Hin, in_map_iff. split.
    - intros (r & Hr1 & Hr2). apply country_data_In in Hr2. exists r. tauto.
    - intros (r & Hr1 & Hr2 & Hr3). exists r. rewrite country_data_In. tauto. }
  split_ands.
  - rewrite (proj2 (countries_sorted_distinct df)), in_nonempty.
    split; intros (r & Hr); exists r; apply country_data_In; exact Hr.
  - rewrite !in_nonempty. split.
    + intros (city & Hcity). apply Hcities in Hcity as (r & Hr). exists r.
      apply country_data_In. tauto.
    + intros (r & Hr). apply country_data_In in Hr. exists (City r). apply Hcities.
      exists r. tauto.
  - exact Hsorted.
  - exact Hcities.
  - intros city Hcity. apply Hcities in Hcity as (r & Hr1 & Hr2 & Hr3). exists r.
    rewrite country_data_In, city_data_In. tauto.
Qed.

(** ** Examples and witnesses of the further properties *)

Example countries_of_two_rows :
  Selectors.countries
    [row_paris 48.85 2.35;
     {| Country := py "DE"; City := py "berlin"; AQI := 40; PM25 := 12; NO2 := 9; Ozone := 3;
        lat := Some 52.52%Q; lon := Some 13.4%Q |};
     row_paris 48.86 2.36]
  = [py "DE"; py "FR"].
Proof. vm_compute. reflexivity. Qed.

(** X1 on three choices, the best score shared by the last two. *)
Lemma extractOne_first_best_witness :
  [py "newark"; py "newyork"; py "newyork"] <> [] /\
  exists m j,
    @extractOne fuzz_ratio (py "newyork") [py "newark"; py "newyork"; py "newyork"]
    = Some (m, @ratio fuzz_ratio (py "newyork") m, j) /\
    [py "newark"; py "newyork"; py "newyork"] !! j = Some m.
Proof.
  split; [discriminate|].
  destruct (@extractOne_first_best fuzz_ratio (py "newyork")
              [py "newark"; py "newyork"; py "newyork"]) as (m & j & Hrun & Hat & _);
    [discriminate|].
  exists m, j. split; [exact Hrun | exact Hat].
Defined.

Example extractOne_tie_takes_first :
  @extractOne fuzz_ratio (py "newyork") [py "newark"; py "newyork"; py "newyork"]
  = Some (py "newyork", (1 - 0 / 14) * 100, 1%nat)%Q.
Proof. vm_compute. reflexivity. Qed.

(** X4 on the row of paris and the gazetteer of paris. *)
Lemma gazetteer_city_is_kept_witness :
  In (set_air_City (fun _ => py "paris") air_parris_fr)
     [air_parris_fr; set_air_City (fun _ => py "paris") air_parris_fr] /\
  In (air_City (set_air_City (fun _ => py "paris") air_parris_fr)) (map geo_City [geo_paris]) /\
  exists M,
    @match_cities fuzz_ratio
      (unique (map air_City [air_parris_fr; set_air_City (fun _ => py "paris") air_parris_fr]))
      (unique (map geo_City [geo_paris])) ∅ = Ok M /\
    M !! py "paris" = Some (py "paris").
Proof.
  assert (H1 : In (set_air_City (fun _ => py "paris") air_parris_fr)
                 [air_parris_fr; set_air_City (fun _ => py "paris") air_parris_fr])
    by (right; left; reflexivity).
  assert (H2 : In (air_City (set_air_City (fun _ => py "paris") air_parris_fr))
                 (map geo_City [geo_paris])) by (left; reflexivity).
  split; [exact H1|]. split; [exact H2|].
  destruct (gazetteer_city_is_kept _ _ _ H1 H2) as (M & HM & Hat & _).
  exists M. split; [exact HM | exact Hat].
Defined.

(** X6 on the end-to-end example with the country given as a code. *)
Lemma output_row_provenance_witness :
  @pipeline ascii_only_db sample_pycountry fuzz_ratio [measurement_fr] [gazetteer_paris]
  = Ok [row_paris 48.85 2.35] /\
  In (row_paris 48.85 2.35) [row_paris 48.85 2.35] /\
  exists m g,
    In m [measurement_fr] /\ In g [gazetteer_paris] /\
    Country (row_paris 48.85 2.35) = country_name m /\
    City (row_paris 48.85 2.35) = @normalize ascii_only_db (geonames_name g).
Proof.
  assert (Hrun : @pipeline ascii_only_db sample_pycountry fuzz_ratio
                   [measurement_fr] [gazetteer_paris] = Ok [row_paris 48.85 2.35])
    by (vm_compute; reflexivity).
  assert (Hin : In (row_paris 48.85 2.35) [row_paris 48.85 2.35]) by (left; reflexivity).
  split; [exact Hrun|]. split; [exact Hin|].
  destruct (@output_row_provenance ascii_only_db sample_pycountry fuzz_ratio _ _ _ Hrun _ Hin)
    as (m & g & Hm & Hg & Hc & _ & Hcity & _).
  exists m, g. split_ands; assumption.
Defined.

(** X7 on two ASCII texts. *)
Lemma normalize_ascii_witness :
  Forall (fun c => c < 128) (py "Saint-") /\
  Forall (fun c => c < 128) (py "Denis 93") /\
  @normalize ascii_only_db (py "Saint-" ++ py "Denis 93")
  = @normalize ascii_only_db (py "Saint-") ++ @normalize ascii_only_db (py "Denis 93").
Proof.
  assert (H1 : Forall (fun c => c < 128) (py "Saint-"))
    by (repeat constructor).
  assert (H2 : Forall (fun c => c < 128) (py "Denis 93"))
    by (repeat constructor).
  split; [exact H1|]. split; [exact H2|].
  apply (@normalize_ascii ascii_only_db _ _ H1 H2).
Defined.

(** ** Matching the rewritten table again *)

Lemma set_air_City_fixed (f : str -> str) (r : AirRow) :
  f (air_City r) = air_City r -> set_air_City f r = r.
Proof. intros Hf. unfold set_air_City. rewrite Hf. destruct r; reflexivity. Qed.

(** X12: with [fuzz.ratio] as scorer and a gazetteer that is not empty, the
    matching step is idempotent: the mapping built from the rewritten
    measurement table rewrites no city of it. *)
Theorem rewriting_twice_changes_nothing (air : list AirRow) (geo : list GeoRow) :
  geo <> [] ->
  exists M M',
    @match_cities fuzz_ratio (unique (map air_City air)) (unique (map geo_City geo)) ∅ = Ok M /\
    @match_cities fuzz_ratio
      (unique (map air_City (map (set_air_City (replace M)) air)))
      (unique (map geo_City geo)) ∅ = Ok M' /\
    map (set_air_City (replace M')) (map (set_air_City (replace M)) air)
    = map (set_air_City (replace M)) air.
Proof.
  intros Hgeo.
  assert (HG : unique (map geo_City geo) <> []).
  { apply unique_nonempty. destruct geo; [congruence | discriminate]. }
  destruct (@match_cities_spec fuzz_ratio (unique (map air_City air)) _ HG ∅)
    as (M & HM & Hin & _).
  destruct (@match_cities_spec fuzz_ratio
              (unique (map air_City (map (set_air_City (replace M)) air))) _ HG ∅)
    as (M' & HM' & Hin' & _).
  exists M, M'. split_ands; [exact HM | exact HM' |].
  rewrite <- (map_id (map (set_air_City (replace M)) air)) at 2.
  apply List.map_ext_in. intros r' Hr'. apply set_air_City_fixed.
  assert (Hcity' : In (air_City r') (unique (map air_City (map (set_air_City (replace M)) air))))
    by (apply unique_In, in_map, Hr').
  apply in_map_iff in Hr' as (r & <- & Hr).
  assert (Hcity : In (air_City r) (unique (map air_City air)))
    by (apply unique_In, in_map, Hr).
  cbn [set_air_City air_City] in *.
  specialize (Hin _ Hcity). specialize (Hin' _ Hcity').
  destruct (M !! air_City r) as [m|] eqn:E.
  - assert (Hs : replace M (air_City r) = m) by (unfold replace; rewrite E; reflexivity).
    rewrite Hs in *.
    assert (Hacc : @accepted fuzz_ratio (air_City r) (unique (map geo_City geo)) = Some m).
    { destruct (@accepted fuzz_ratio (air_City r) (unique (map geo_City geo)));
        [congruence | rewrite lookup_empty in Hin; discriminate]. }
    apply (@accepted_score fuzz_ratio) in Hacc as [Hm _].
    rewrite (accepted_exact m _ Hm) in Hin'.
    unfold replace. rewrite Hin'. reflexivity.
  - assert (Hs : replace M (air_City r) = air_City r)
      by (unfold replace; rewrite E; reflexivity).
    rewrite Hs in *.
    destruct (@accepted fuzz_ratio (air_City r) (unique (map geo_City geo)));
      [discriminate|].
    unfold replace. rewrite Hin', lookup_empty. reflexivity.
Qed.

(** X12 on the frames of the end-to-end example. *)
Lemma rewriting_twice_changes_nothing_witness :
  [geo_paris] <> [] /\
  exists M M',
    @match_cities fuzz_ratio (unique (map air_City [air_parris_fr]))
      (unique (map geo_City [geo_paris])) ∅ = Ok M /\
    map (set_air_City (replace M')) (map (set_air_City (replace M)) [air_parris_fr])
    = map (set_air_City (replace M)) [air_parris_fr].
Proof.
  split; [discriminate|].
  destruct (rewriting_twice_changes_nothing [air_parris_fr] [geo_paris])
    as (M & M' & HM & _ & Hfix); [discriminate|].
  exists M, M'. split; [exact HM | exact Hfix].
Defined.
